(** * IMGW archive utilities ([simple_utils.py], [utils.py]): a shallow embedding

    The two Python files of the repository hold the same functions (the second
    one without docstrings).  This development embeds those functions and the
    library behaviour they rely on (Python's [re], [str] and [list], a
    BeautifulSoup tree, a tree-shaped file system, a [requests] response and a
    pandas data frame) and proves properties of them. *)

From Stdlib Require Import List NArith ZArith Bool Lia Ascii PeanoNat.
From Stdlib Require String FinFun.
Import String.StringSyntax.
Import ListNotations.
Local Open Scope N_scope.
Local Open Scope list_scope.
Local Open Scope string_scope.

Set Implicit Arguments.
Set Warnings "-register-all".

(** ** Python values: text, exceptions, results *)

Module Py.

(** A Python [str] is a sequence of Unicode code points. *)
Definition char := N.
Definition str := list char.

(** An ASCII literal as a [str]. *)
Definition lit (s : String.string) : str :=
  List.map N_of_ascii (String.list_ascii_of_string s).

Definition LF : char := 10.
Definition SLASH : char := 47.

(** The exceptions the embedded code can raise. *)
Inductive exn :=
| IndexError | TypeError | ValueError | AttributeError
| FileNotFoundError | NotADirectoryError | IsADirectoryError
| OSError | FileExistsError | UnicodeDecodeError | UnicodeEncodeError
| ConnectionError | ParserError | RecursionError | BadZipFile.

Inductive result (A : Type) :=
| Ok (a : A)
| Raise (e : exn).
Arguments Ok {A} a.
Arguments Raise {A} e.

Definition bind {A B} (r : result A) (f : A -> result B) : result B :=
  match r with
  | Ok a => f a
  | Raise e => Raise e
  end.

Definition raises {A} (r : result A) : bool :=
  match r with Ok _ => false | Raise _ => true end.

(** [seq[0]] on a list. *)
Definition item0 {A} (l : list A) : result A :=
  match l with
  | x :: _ => Ok x
  | [] => Raise IndexError
  end.

(** [list(map(f, l))] for an [f] that may raise: the first exception
    reached, left to right, is the one that propagates. *)
Fixpoint map_r {A B} (f : A -> result B) (l : list A) : result (list B) :=
  match l with
  | [] => Ok []
  | x :: t =>
      bind (f x) (fun y => bind (map_r f t) (fun ys => Ok (y :: ys)))
  end.

Definition str_eqb (a b : str) : bool :=
  if list_eq_dec N.eq_dec a b then true else false.

(** [s.startswith(p)] and [s.endswith(p)]. *)
Fixpoint startswith (s p : str) : bool :=
  match p, s with
  | [], _ => true
  | c :: p', d :: s' => (c =? d) && startswith s' p'
  | _ :: _, [] => false
  end.

Definition endswith (s p : str) : bool :=
  startswith (rev s) (rev p).

(** [s.replace(old, new)] for a one-character [old]. *)
Definition replace_char (old : char) (new s : str) : str :=
  flat_map (fun c => if c =? old then new else [c]) s.

(** [s[i:j]]. *)
Definition slice (s : str) (i j : nat) : str :=
  firstn (j - i) (skipn i s).

End Py.
Import Py.

Declare Scope py_scope.
Notation "x <- r ;; k" := (bind r (fun x => k))
  (at level 61, r at next level, right associativity) : py_scope.
Local Open Scope py_scope.

(** ** The Unicode character database

    [\d], [\w] and [\s] of a [str] pattern follow the Unicode database of the
    interpreter.  Its ASCII part is fixed and written out below; the part
    beyond ASCII is a parameter of the development. *)

Class UnicodeDb := {
  nonascii_decimal : char -> bool;   (* category Nd, code points >= 128 *)
  nonascii_alnum : char -> bool;     (* str.isalnum, code points >= 128 *)
  nonascii_space : char -> bool      (* str.isspace, code points >= 128 *)
}.

(** A database with nothing beyond ASCII, to evaluate ASCII inputs. *)
Definition ascii_db : UnicodeDb :=
  {| nonascii_decimal := fun _ => false;
     nonascii_alnum := fun _ => false;
     nonascii_space := fun _ => false |}.

Definition between (lo hi c : char) : bool := (lo <=? c) && (c <=? hi).

Section Classes.
Context {db : UnicodeDb}.

Definition is_digit (c : char) : bool :=
  if c <? 128 then between 48 57 c else nonascii_decimal c.

Definition is_word (c : char) : bool :=
  if c <? 128
  then between 48 57 c || between 65 90 c || between 97 122 c || (c =? 95)
  else nonascii_alnum c.

Definition is_space (c : char) : bool :=
  if c <? 128
  then between 9 13 c || between 28 31 c || (c =? 32)
  else nonascii_space c.
End Classes.

(** ** Python's [re]: a backtracking matcher

    A pattern is run from a position of the subject and yields every way it
    can match from there, in the order a backtracking matcher tries them; the
    match [re] reports is the first.  *)

Module Re.

(** An item of a character set [[...]]. *)
Inductive citem :=
| CChar (c : char)
| CRange (lo hi : char)
| CDigit                 (* \d *)
| CWord                  (* \w *)
| CNotWord               (* \W *)
| CSpace.                (* \s *)

Inductive regex :=
| Empty
| Lit (c : char)
| Any                       (* . : anything but a newline *)
| InSet (items : list citem)
| Bol                       (* ^ *)
| Eol                       (* $ : at the end, or before a final newline *)
| Seq (a b : regex)
| Alt (a b : regex)
| Star (a : regex)          (* a*, greedy *)
| Plus (a : regex)          (* a+, greedy *)
| Rep (n : nat) (a : regex) (* a{n} *)
| Group (i : nat) (a : regex).

(** A matcher state: the position in the subject, what is left of it, and
    the spans of the groups closed so far. *)
Record mstate := MState {
  pos : nat;
  rest : str;
  groups : list (nat * (nat * nat))
}.

Definition advance (s : mstate) (t : str) : mstate :=
  MState (S (pos s)) t (groups s).

Definition close_group (i start : nat) (s : mstate) : mstate :=
  MState (pos s) (rest s) ((i, (start, pos s)) :: groups s).

Section Matcher.
Context {db : UnicodeDb}.

Definition in_item (c : char) (it : citem) : bool :=
  match it with
  | CChar d => c =? d
  | CRange lo hi => between lo hi c
  | CDigit => is_digit c
  | CWord => is_word c
  | CNotWord => negb (is_word c)
  | CSpace => is_space c
  end.

Definition in_set (items : list citem) (c : char) : bool :=
  existsb (in_item c) items.

(** One character accepted by [ok]. *)
Definition one (ok : char -> bool) (s : mstate) : list mstate :=
  match rest s with
  | c :: t => if ok c then [advance s t] else []
  | [] => []
  end.

(** Greedy repetition of [step]: one more round first, stopping second.
    A round that consumes nothing is not repeated. *)
Fixpoint star_loop (step : mstate -> list mstate) (fuel : nat)
  (s : mstate) : list mstate :=
  match fuel with
  | O => [s]
  | S f =>
      flat_map (fun s' => if (pos s <? pos s')%nat
                          then star_loop step f s' else [])
               (step s)
      ++ [s]
  end.

Fixpoint rep_loop (step : mstate -> list mstate) (n : nat)
  (s : mstate) : list mstate :=
  match n with
  | O => [s]
  | S m => flat_map (rep_loop step m) (step s)
  end.

Fixpoint run (r : regex) (s : mstate) : list mstate :=
  match r with
  | Empty => [s]
  | Lit c => one (fun d => d =? c) s
  | Any => one (fun d => negb (d =? LF)) s
  | InSet items => one (in_set items) s
  | Bol => if (pos s =? 0)%nat then [s] else []
  | Eol =>
      match rest s with
      | [] => [s]
      | [c] => if c =? LF then [s] else []
      | _ => []
      end
  | Seq a b => flat_map (run b) (run a s)
  | Alt a b => run a s ++ run b s
  | Star a => star_loop (run a) (S (length (rest s))) s
  | Plus a =>
      flat_map (fun s' => star_loop (run a) (S (length (rest s'))) s')
               (run a s)
  | Rep n a => rep_loop (run a) n s
  | Group i a => List.map (close_group i (pos s)) (run a s)
  end.

(** [re.match(p, subject)]: the first match from position 0. *)
Definition re_match (p : regex) (subject : str) : option mstate :=
  hd_error (run p (MState 0 subject [])).

(** [True if re.match(p, seq) else False]. *)
Definition matches (p : regex) (subject : str) : bool :=
  match re_match p subject with Some _ => true | None => false end.

(** The end of the whole match, [m.end()]. *)
Definition match_end (m : mstate) : nat := pos m.

(** [m.group(i)], with [''] for a group that took no part (as
    [findall] reports it). *)
Definition group_text (subject : str) (m : mstate) (i : nat) : str :=
  match find (fun g => (fst g =? i)%nat) (groups m) with
  | Some (_, (a, b)) => slice subject a b
  | None => []
  end.

(** [re.findall(p, subject)] for a pattern of [ng >= 2] groups: the
    tuples of group texts of the successive non-overlapping matches.
    After an empty match the next one must not be empty at the same
    place. *)
Fixpoint findall_loop (p : regex) (ng : nat) (subject : str)
  (fuel : nat) (at_ : nat) (left : str) (must_advance : bool)
  : list (list str) :=
  match fuel with
  | O => []
  | S f =>
      let tries :=
        filter (fun m => negb (must_advance && (pos m =? at_)%nat))
               (run p (MState at_ left [])) in
      match tries with
      | m :: _ =>
          List.map (group_text subject m) (seq 1 ng)
          :: findall_loop p ng subject f (pos m) (rest m)
               (pos m =? at_)%nat
      | [] =>
          match left with
          | [] => []
          | _ :: t => findall_loop p ng subject f (S at_) t false
          end
      end
  end.

Definition findall (p : regex) (ng : nat) (subject : str)
  : list (list str) :=
  findall_loop p ng subject (2 * length subject + 2) 0 subject false.

End Matcher.
End Re.
Import Re.

(** Concatenation of several pieces of a pattern. *)
Fixpoint cat (rs : list regex) : regex :=
  match rs with
  | [] => Empty
  | [r] => r
  | r :: t => Seq r (cat t)
  end.

(** ** The patterns of the source *)

Definition DIGIT : regex := InSet [CDigit].

(** [r"^\d{4}\/$|^\d{4}\_\d{4}\/$"] of [get_dates_from_table]. *)
Definition dates_pattern : regex :=
  Alt (cat [Bol; Rep 4 DIGIT; Lit SLASH; Eol])
      (cat [Bol; Rep 4 DIGIT; Lit 95; Rep 4 DIGIT; Lit SLASH; Eol]).

(** [r"(\w+).txt$"] of [get_info_files_from_table]. *)
Definition info_pattern : regex :=
  cat [Group 1 (Plus (InSet [CWord])); Any; Lit 116; Lit 120; Lit 116; Eol].

(** ** BeautifulSoup trees *)

Module Bs4.

Inductive node :=
| NavigableString (s : str)
| Tag (name : str) (contents : list node).

(** [tag.string]: the text of a tag whose only child is a string, the
    [.string] of an only child that is a tag, and [None] otherwise. *)
Fixpoint string_of (n : node) : option str :=
  match n with
  | NavigableString s => Some s
  | Tag _ [c] => string_of c
  | Tag _ _ => None
  end.

(** The descendants of a node in document order. *)
Fixpoint descendants (n : node) : list node :=
  match n with
  | NavigableString _ => []
  | Tag _ cs => flat_map (fun c => c :: descendants c) cs
  end.

Definition is_tag (name : str) (n : node) : bool :=
  match n with
  | NavigableString _ => false
  | Tag m _ => str_eqb m name
  end.

(** [tag.find_all(name)] and [tag.find(name)]. *)
Definition find_all (name : str) (n : node) : list node :=
  filter (is_tag name) (descendants n).

Definition find (name : str) (n : node) : option node :=
  hd_error (find_all name n).

End Bs4.
Import Bs4.

(** ** The listing parser and classifier *)

(** What [requests.get] answers with. *)
Record response := Response {
  status_code : Z;
  content : list N;                 (* the body, as bytes *)
  breaks_after : option nat         (* a streamed body that breaks off
                                       after that many bytes *)
}.

(** The network and the HTML parser are outside the repository.
    [BeautifulSoup(bytes, "html.parser")] gives the tree of the page, or
    raises when the parser rejects the markup. *)
Class Web := {
  requests_get : str -> result response;
  html_parser : list N -> result node
}.

(** [e.replace("/", "")] of both classifiers. *)
Definition strip_slash (e : str) : str := replace_char SLASH [] e.

Section Listing.
Context {db : UnicodeDb} {web : Web}.

(** [get_table_from_imgw]: [soup.find('table')] is the first table of the
    page, or [None]. *)
Definition get_table_from_imgw (url : str) : result (option node) :=
  page <- requests_get url ;;
  soup <- html_parser (content page) ;;
  Ok (find (lit "table") soup).

(** The filter step of both classifiers,
    [filter(lambda seq: True if re.match(p, seq) else False, ...)]:
    [re.match] raises [TypeError] on a subject that is not a string. *)
Fixpoint filter_matching (p : regex) (seqs : list (option str))
  : result (list str) :=
  match seqs with
  | [] => Ok []
  | None :: _ => Raise TypeError
  | Some s :: t =>
      kept <- filter_matching p t ;;
      Ok (if matches p s then s :: kept else kept)
  end.

(** The text of every link, [map(lambda e: e.string, find_all('a'))]. *)
Definition link_strings (bs4_table : node) : list (option str) :=
  List.map string_of (find_all (lit "a") bs4_table).

Definition get_dates_from_table (bs4_table : node) : result (list str) :=
  kept <- filter_matching dates_pattern (link_strings bs4_table) ;;
  Ok (List.map strip_slash kept).

Definition get_info_files_from_table (bs4_table : node)
  : result (list str) :=
  kept <- filter_matching info_pattern (link_strings bs4_table) ;;
  Ok (List.map strip_slash kept).

End Listing.

(** ** The header extractor *)

(** [r"(\s+\n)|(\n)"], the separator of the footer. *)
Definition separator_pattern : regex :=
  Alt (Group 1 (Seq (Plus (InSet [CSpace])) (Lit LF))) (Group 2 (Lit LF)).

(** The sets of the header pattern: [A-Z] and the capitals A-ogonek,
    E-ogonek, C-acute, N-acute, Z-dot, Z-acute, S-acute (C-acute is written
    twice in the source), and the same in lower case. *)
Definition UPPER : list citem :=
  [CRange 65 90; CChar 260; CChar 280; CChar 262; CChar 323; CChar 379;
   CChar 377; CChar 346; CChar 262].

Definition LOWER : list citem :=
  [CRange 97 122; CChar 261; CChar 281; CChar 263; CChar 324; CChar 380;
   CChar 378; CChar 347; CChar 263].

(** The last set of the first alternative: the letters, [%], the degree
    sign and [|]. *)
Definition UNIT_END : list citem :=
  UPPER ++ LOWER ++ [CChar 37; CChar 176; CChar 124].

Definition RBRACKET : char := 93.

(** The first alternative: the set is closed by the first [[]]], and a
    literal [[]]] follows it. *)
Definition pattern_A : regex :=
  cat [Bol; InSet UPPER; Star Any; InSet UNIT_END; Lit RBRACKET].

(** The second alternative. *)
Definition pattern_B : regex :=
  cat [Bol; InSet [CNotWord; CRange 65 90]; Star Any; InSet (UPPER ++ LOWER)].

Definition header_pattern : regex :=
  Alt (Group 1 pattern_A) (Group 2 pattern_B).

(** The lines of a text as [readline] and [readlines] give them, each with
    its newline; the last one may have none. *)
Fixpoint py_lines (text : str) : list str :=
  match text with
  | [] => []
  | c :: t =>
      if c =? LF then [c] :: py_lines t
      else match py_lines t with
           | [] => [[c]]
           | l :: ls => (c :: l) :: ls
           end
  end.

Section Headers.
Context {db : UnicodeDb}.

(** [re.match(r"(\s+\n)|(\n)", s) is not None]. *)
Definition is_separator (s : str) : bool := matches separator_pattern s.

(** [list(filter(lambda e: e[-1], enumerate(map(..., content))))]. *)
Definition separator_hits (content : list str) : list (nat * bool) :=
  filter snd (combine (seq 0 (List.length content))
                      (List.map is_separator content)).

(** The lines before the footer: the first line is read and dropped, the
    rest is cut at the first separator. *)
Definition header_block (text : str) : result (list str) :=
  let content := tl (py_lines text) in
  hit <- item0 (separator_hits content) ;;
  let footer_ix := fst hit in
  Ok (firstn footer_ix content).

(** [tuple(filter(lambda s: not s == '', e[0]))[0]] on the [findall] of a
    line. *)
Definition header_of_line (line : str) : result str :=
  e0 <- item0 (findall header_pattern 2 line) ;;
  item0 (filter (fun s => negb (str_eqb s [])) e0).

(** The body of [get_headers_from_info_file], on the decoded text. *)
Definition headers_of_text (text : str) : result (list str) :=
  content <- header_block text ;;
  map_r header_of_line content.

End Headers.

(** The decoder of text files is outside the repository: the text of a file
    opened with [encoding="windows-1250"], newlines translated. *)
Class TextCodec := {
  decode_windows_1250 : list N -> result str
}.

(** ** The file system *)

Module Fs.

Inductive entry :=
| File (data : list N)
| Dir (children : list (str * entry)).

(** A path, by its components. *)
Definition path := list str.

Definition assoc (n : str) (cs : list (str * entry)) : option entry :=
  option_map snd (List.find (fun c => str_eqb (fst c) n) cs).

Fixpoint lookup (p : path) (e : entry) : option entry :=
  match p with
  | [] => Some e
  | n :: p' =>
      match e with
      | Dir cs =>
          match assoc n cs with
          | Some c => lookup p' c
          | None => None
          end
      | File _ => None
      end
  end.

(** The entry at [p] replaced by its image under [f]. *)
Fixpoint update (p : path) (f : entry -> entry) (e : entry) : entry :=
  match p with
  | [] => f e
  | n :: p' =>
      match e with
      | Dir cs =>
          Dir (List.map (fun c => if str_eqb (fst c) n
                                  then (fst c, update p' f (snd c)) else c)
                        cs)
      | File _ => e
      end
  end.

Definition is_dir (e : entry) : bool :=
  match e with Dir _ => true | File _ => false end.

Definition without (n : str) (cs : list (str * entry)) : list (str * entry) :=
  filter (fun c => negb (str_eqb (fst c) n)) cs.

Definition drop_child (n : str) (e : entry) : entry :=
  match e with
  | Dir cs => Dir (without n cs)
  | File _ => e
  end.

(** The entry [n] of a directory set to [c].  The system lists a directory
    in no particular order; the list has to give one, and a new entry goes
    to its end.  Nothing stated below about a directory that got new
    entries depends on where they stand. *)
Definition put_child (n : str) (c : entry) (e : entry) : entry :=
  match e with
  | Dir cs =>
      match assoc n cs with
      | Some _ =>
          Dir (List.map (fun x => if str_eqb (fst x) n then (n, c) else x) cs)
      | None => Dir (cs ++ [(n, c)])
      end
  | File _ => e
  end.

(** The parent and the name of a path. *)
Definition split_path (p : path) : option (path * str) :=
  match rev p with
  | [] => None
  | n :: r => Some (rev r, n)
  end.

(** [os.path.exists]. *)
Definition exists_ (p : path) (fs : entry) : bool :=
  match lookup p fs with Some _ => true | None => false end.

(** [os.listdir]. *)
Definition listdir (p : path) (fs : entry) : result (list str) :=
  match lookup p fs with
  | Some (Dir cs) => Ok (List.map fst cs)
  | Some (File _) => Raise NotADirectoryError
  | None => Raise FileNotFoundError
  end.

(** [os.remove]. *)
Definition remove (p : path) (fs : entry) : result entry :=
  match lookup p fs, split_path p with
  | Some (File _), Some (parent, n) => Ok (update parent (drop_child n) fs)
  | Some (Dir _), _ => Raise IsADirectoryError
  | Some (File _), None => Raise OSError
  | None, _ => Raise FileNotFoundError
  end.

(** [os.rmdir]. *)
Definition rmdir (p : path) (fs : entry) : result entry :=
  match lookup p fs, split_path p with
  | Some (Dir []), Some (parent, n) => Ok (update parent (drop_child n) fs)
  | Some (Dir _), _ => Raise OSError
  | Some (File _), _ => Raise NotADirectoryError
  | None, _ => Raise FileNotFoundError
  end.

(** [os.mkdir]. *)
Definition mkdir (p : path) (fs : entry) : result entry :=
  match lookup p fs, split_path p with
  | Some _, _ => Raise FileExistsError
  | None, Some (parent, n) =>
      match lookup parent fs with
      | Some (Dir _) => Ok (update parent (put_child n (Dir [])) fs)
      | Some (File _) => Raise NotADirectoryError
      | None => Raise FileNotFoundError
      end
  | None, None => Raise OSError
  end.

(** [open(p, 'wb')]: the file is created, or emptied. *)
Definition open_wb (p : path) (fs : entry) : result entry :=
  match lookup p fs, split_path p with
  | Some (Dir _), _ => Raise IsADirectoryError
  | _, Some (parent, n) =>
      match lookup parent fs with
      | Some (Dir _) => Ok (update parent (put_child n (File [])) fs)
      | Some (File _) => Raise NotADirectoryError
      | None => Raise FileNotFoundError
      end
  | _, None => Raise OSError
  end.

(** [fd.write(chunk)] on the file opened at [p]. *)
Definition append (p : path) (chunk : list N) (fs : entry) : entry :=
  update p (fun e => match e with
                     | File d => File (d ++ chunk)
                     | Dir _ => e
                     end) fs.

(** The height of a tree, which bounds the depth of a walk. *)
Fixpoint height (e : entry) : nat :=
  match e with
  | File _ => 0
  | Dir cs => S (fold_right (fun c h => Nat.max (height (snd c)) h) 0%nat cs)
  end.

(** In a directory of a real file system a name is there once. *)
Fixpoint wf (e : entry) : Prop :=
  match e with
  | File _ => True
  | Dir cs =>
      NoDup (List.map fst cs)
      /\ fold_right (fun c P => wf (snd c) /\ P) True cs
  end.

End Fs.
Import Fs.

Section InfoFile.
Context {db : UnicodeDb} {codec : TextCodec}.

(** [get_headers_from_info_file]: the file is opened and decoded, and the
    headers are read off its text. *)
Definition get_headers_from_info_file (info_file_path : path)
  (files : entry) : result (list str) :=
  match lookup info_file_path files with
  | Some (File data) =>
      text <- decode_windows_1250 data ;;
      headers_of_text text
  | Some (Dir _) => Raise IsADirectoryError
  | None => Raise FileNotFoundError
  end.

End InfoFile.

(** ** The world of the scripts: files and printed lines *)

(** What the functions print. *)
Inductive message :=
| MsgRemoving (p : path)   (* path exists - removing contents of ... *)
| MsgNoPath (p : path)     (* Path ... doesn't exist. This folder has to be
                              created manually. *)
| MsgCreating (d : str)    (* Creating ... directory *)
| MsgNoRoot (p : path)     (* Root directory ... doesn't exist. Aborting. *)
| MsgUnable                (* Unable to download the file. *)
| MsgNoFile.               (* File does not exist. Is URL proper? Unable to
                              download the file. *)

Record world := World {
  fs : entry;
  stdout : list message
}.

(** A statement: it changes the world and returns or raises. *)
Definition M (A : Type) := world -> world * result A.

Definition ret {A} (a : A) : M A := fun w => (w, Ok a).

Definition raise {A} (e : exn) : M A := fun w => (w, Raise e).

Definition andthen {A B} (m : M A) (k : A -> M B) : M B :=
  fun w =>
    match m w with
    | (w', Ok a) => k a w'
    | (w', Raise e) => (w', Raise e)
    end.

Notation "m >> k" := (andthen m (fun _ => k))
  (at level 62, right associativity) : py_scope.

Definition print (msg : message) : M unit :=
  fun w => (World (fs w) (stdout w ++ [msg]), Ok tt).

(** A file-system call: the files change when it returns. *)
Definition fs_call (op : entry -> result entry) : M unit :=
  fun w =>
    match op (fs w) with
    | Ok fs' => (World fs' (stdout w), Ok tt)
    | Raise e => (w, Raise e)
    end.

(** [for x in l: body(x)]. *)
Fixpoint for_each {A} (l : list A) (body : A -> M unit) : M unit :=
  match l with
  | [] => ret tt
  | x :: t => body x >> for_each t body
  end.

(** [try: m  except: handler] with a bare [except]. *)
Definition try_except (m handler : M unit) : M unit :=
  fun w =>
    match m w with
    | (w', Ok a) => (w', Ok a)
    | (w', Raise _) => handler w'
    end.

(** ** The directory manager *)

Definition subdirs (cs : list (str * entry)) : list str :=
  List.map fst (filter (fun c => is_dir (snd c)) cs).

Definition nondirs (cs : list (str * entry)) : list str :=
  List.map fst (filter (fun c => negb (is_dir (snd c))) cs).

(** The loop of [clean_directories] over [os.walk(root, topdown=False)]:
    a directory is scanned, its subdirectories are walked, and then the
    directory is yielded and the body of the loop runs on it.  A path that
    is no directory yields nothing.  [fuel] bounds the depth. *)
Fixpoint clean_walk (fuel : nat) (root : path) : M unit :=
  match fuel with
  | O => raise RecursionError
  | S f =>
      fun w =>
        match lookup root (fs w) with
        | Some (Dir cs) =>
            (for_each (subdirs cs) (fun d => clean_walk f (root ++ [d])) >>
             for_each (nondirs cs) (fun x => fs_call (remove (root ++ [x]))) >>
             for_each (subdirs cs) (fun d => fs_call (rmdir (root ++ [d])))) w
        | _ => (w, Ok tt)
        end
  end.

Definition clean_directories (main_directory : path) : M unit :=
  fun w =>
    if exists_ main_directory (fs w)
    then (print (MsgRemoving main_directory) >>
          clean_walk (S (height (fs w))) main_directory) w
    else print (MsgNoPath main_directory) w.

(** [d.split("/")]: the components of a path text. *)
Fixpoint split_slash (d : str) : list str :=
  match d with
  | [] => [[]]
  | c :: t =>
      if c =? SLASH then [] :: split_slash t
      else match split_slash t with
           | w :: ws => (c :: w) :: ws
           | [] => [[c]]
           end
  end.

(** The empty components at the head of a list. *)
Fixpoint drop_empty (l : list str) : list str :=
  match l with
  | [] :: t => drop_empty t
  | _ => l
  end.

(** The components that stay in place: the empty one of a doubled slash,
    and the dot. *)
Definition is_dot (c : str) : bool := str_eqb c [] || str_eqb c (lit ".").

Definition is_dotdot (c : str) : bool := str_eqb c (lit "..").

(** The walk of the system from the directory [cur] through the components
    [comps] of a path: a component is entered from a directory only; a dot
    stays, two dots go up (and stay at the top).  Paths are taken from the
    top of the tree, which stands for the root of the file system. *)
Fixpoint walk_dirs (fs : entry) (cur : path) (comps : list str)
  : result path :=
  match comps with
  | [] => Ok cur
  | c :: t =>
      match lookup cur fs with
      | Some (Dir _) =>
          walk_dirs fs (if is_dot c then cur
                        else if is_dotdot c then removelast cur
                        else cur ++ [c]) t
      | Some (File _) => Raise NotADirectoryError
      | None => Raise FileNotFoundError
      end
  end.

(** A character a path can hold, the file-system encoding being UTF-8 with
    [surrogateescape]: no surrogate but the ones that stand for a byte. *)
Definition encodable (c : char) : bool :=
  (c <? 55296) || ((56448 <=? c) && (c <=? 56575))
  || ((57343 <? c) && (c <=? 1114111)).

(** [os.mkdir(os.path.join(root_dir, d))] for a text [d], on a file system
    that sets no limit to the length of a name.  A text that cannot be
    encoded is refused, and then a text with a null character.  A text
    that starts with a slash is taken
    from the top, any other from [root_dir].  The slashes at the end do not
    count; what is left names the directory to make by its last component,
    in the directory the components before it lead to.  A text without any
    component names the directory it starts from, a last component that is
    a dot or two dots names a directory that is there: both are refused as
    existing. *)
Definition mkdir_joined (root_dir : path) (d : str) (fs : entry)
  : result entry :=
  if negb (forallb encodable d) then Raise UnicodeEncodeError
  else if existsb (fun c => c =? 0) d then Raise ValueError
  else
    let base := if startswith d [SLASH] then [] else root_dir in
    match rev (drop_empty (rev (split_slash d))) with
    | [] =>
        match lookup base fs with
        | Some _ => Raise FileExistsError
        | None => Raise FileNotFoundError
        end
    | comps =>
        parent <- walk_dirs fs base (removelast comps) ;;
        let n := last comps [] in
        if is_dot n || is_dotdot n then
          match lookup parent fs with
          | Some (Dir _) => Raise FileExistsError
          | Some (File _) => Raise NotADirectoryError
          | None => Raise FileNotFoundError
          end
        else mkdir (parent ++ [n]) fs
    end.


(** ** The fetcher *)

(** [r.iter_content(chunk_size)]: the body in pieces of [chunk_size]
    bytes. *)
Fixpoint chunks (fuel : nat) (chunk_size : nat) (body : list N)
  : list (list N) :=
  match fuel, body with
  | _, [] => []
  | O, _ => [body]
  | S f, _ => firstn chunk_size body :: chunks f chunk_size (skipn chunk_size body)
  end.

Definition iter_content (r : response) (chunk_size : nat)
  : list (list N) * bool :=
  match breaks_after r with
  | None =>
      (chunks (List.length (content r)) chunk_size (content r), false)
  | Some n =>
      (chunks n chunk_size (firstn n (content r)), true)
  end.

Section Fetcher.
Context {web : Web}.

Definition download_url (url : str) (save_path : path) (chunk_size : nat)
  : M unit :=
  fun w =>
    match requests_get url with
    | Raise e => (w, Raise e)
    | Ok r =>
        if (status_code r =? 200)%Z then
          try_except
            (fs_call (open_wb save_path) >>
             let (pieces, broken) := iter_content r chunk_size in
             for_each pieces
               (fun chunk => fs_call (fun x => Ok (append save_path chunk x)))
             >> (if broken then raise ConnectionError else ret tt))
            (print MsgUnable) w
        else print MsgNoFile w
    end.

(** [download_imgw_info_files]; the URL is [url + "/" + fname]. *)
Definition download_imgw_info_files (url : str) (file_names : list str)
  (download_dir : path) : M unit :=
  for_each file_names
    (fun fname =>
       download_url (url ++ [SLASH] ++ fname) (download_dir ++ [fname]) 128).

(** [download_all_zip_files]. *)
Definition download_all_zip_files (url : str) (date_directories : list str)
  (file_pattern : str) (download_dir : path) (ext : str) : M unit :=
  for_each date_directories
    (fun dd =>
       let fname := dd ++ file_pattern ++ ext in
       let full_path_to_file := url ++ dd ++ [SLASH] ++ fname in
       download_url full_path_to_file (download_dir ++ [fname]) 128).

End Fetcher.

(** ** The extractor *)

(** Archives are outside the repository: what
    [zipfile.ZipFile(bytes).extractall(directory)] makes of the files, and
    how it ends.  An extraction that raises has written the members before
    the failing one, so the files it leaves come with the error. *)
Class Unzipper := {
  extractall : list N -> path -> entry -> entry * result unit
}.

Section Extractor.
Context {zip : Unzipper}.

(** [with zipfile.ZipFile(p, 'r') as zr: zr.extractall(unzip_dir)]. *)
Definition unzip_one (p unzip_dir : path) : M unit :=
  fun w =>
    match lookup p (fs w) with
    | Some (File data) =>
        let (files', r) := extractall data unzip_dir (fs w) in
        (World files' (stdout w), r)
    | Some (Dir _) => (w, Raise IsADirectoryError)
    | None => (w, Raise FileNotFoundError)
    end.

(** [unzip_all]; the directory is listed once, before the loop. *)
Definition unzip_all (zip_dir unzip_dir : path) : M unit :=
  fun w =>
    match listdir zip_dir (fs w) with
    | Raise e => (w, Raise e)
    | Ok names =>
        for_each names
          (fun fname =>
             if endswith fname (lit ".zip")
             then unzip_one (zip_dir ++ [fname]) unzip_dir
             else ret tt) w
    end.

End Extractor.

(** ** Data frames and the merger *)

Module Pandas.

(** A column label: a position (a file read with [header=None]) or a
    name. *)
Inductive label :=
| LInt (n : nat)
| LStr (s : str).

Definition label_eqb (a b : label) : bool :=
  match a, b with
  | LInt x, LInt y => (x =? y)%nat
  | LStr x, LStr y => str_eqb x y
  | _, _ => false
  end.

(** A cell: a parsed value, kept as its text, or a missing one. *)
Inductive cell :=
| Value (text : str)
| NaN.

Record DataFrame := Frame {
  columns : list label;
  index : list nat;
  rows : list (list cell)
}.

(** The shape of a frame, [df.shape]. *)
Definition shape (df : DataFrame) : nat * nat :=
  (List.length (rows df), List.length (columns df)).

Definition mem_label (l : label) (ls : list label) : bool :=
  existsb (label_eqb l) ls.

(** The union of the column labels, each at its first place. *)
Fixpoint union_labels (seen : list label) (ls : list label) : list label :=
  match ls with
  | [] => seen
  | l :: t =>
      if mem_label l seen then union_labels seen t
      else union_labels (seen ++ [l]) t
  end.

Fixpoint cell_at (cols : list label) (row : list cell) (l : label) : cell :=
  match cols, row with
  | c :: cs, x :: xs => if label_eqb c l then x else cell_at cs xs l
  | _, _ => NaN
  end.

(** A row of a frame on the columns of the result. *)
Definition realign (from to : list label) (row : list cell) : list cell :=
  List.map (cell_at from row) to.

(** [pd.concat(frames)]: the rows are stacked, the columns are matched by
    label, and an empty list is an error. *)
Definition concat (frames : list DataFrame) : result DataFrame :=
  match frames with
  | [] => Raise ValueError
  | _ :: _ =>
      let cols := union_labels [] (flat_map columns frames) in
      Ok (Frame cols
                (flat_map index frames)
                (flat_map (fun f => List.map (realign (columns f) cols)
                                             (rows f)) frames))
  end.

(** [df.columns = headers]. *)
Definition set_columns (df : DataFrame) (headers : list label)
  : result DataFrame :=
  if (List.length headers =? List.length (columns df))%nat
  then Ok (Frame headers (index df) (rows df))
  else Raise ValueError.

End Pandas.
Import Pandas.

(** The parser of delimited files is outside the repository:
    [pd.read_csv(bytes, sep=",", header=None, index_col=False, decimal=".",
    encoding="windows-1250")]. *)
Class CsvReader := {
  parse_csv : list N -> result DataFrame
}.

Section Merger.
Context {db : UnicodeDb} {reader : CsvReader}.

(** [pd.read_csv(path, ...)] on the files of the world. *)
Definition read_csv (p : path) (files : entry) : result DataFrame :=
  match lookup p files with
  | Some (File data) => parse_csv data
  | Some (Dir _) => Raise IsADirectoryError
  | None => Raise FileNotFoundError
  end.

(** The test of the loop: [fname.endswith(".csv")] and then
    [f_name_pattern is None or re.match(f_name_pattern, fname)]. *)
Definition selected (f_name_pattern : option regex) (fname : str) : bool :=
  endswith fname (lit ".csv")
  && match f_name_pattern with
     | None => true
     | Some p => matches p fname
     end.

(** The loop that reads the selected files, in the order of the listing. *)
Fixpoint read_selected (csv_dir : path) (f_name_pattern : option regex)
  (files : entry) (names : list str) : result (list DataFrame) :=
  match names with
  | [] => Ok []
  | fname :: t =>
      if selected f_name_pattern fname then
        df <- read_csv (csv_dir ++ [fname]) files ;;
        dfs <- read_selected csv_dir f_name_pattern files t ;;
        Ok (df :: dfs)
      else read_selected csv_dir f_name_pattern files t
  end.

Definition merge_imgw_csv_files (csv_dir : path)
  (headers : option (list label)) (f_name_pattern : option regex)
  (files : entry) : result DataFrame :=
  names <- listdir csv_dir files ;;
  csv_files <- read_selected csv_dir f_name_pattern files names ;;
  df <- concat csv_files ;;
  match headers with
  | Some h => set_columns df h
  | None => Ok df
  end.

End Merger.

(** ** Definitions used to state the properties *)

(** *** The matcher *)

(** [s'] is [s] after the characters [w]. *)
Definition after (s : mstate) (w : str) (s' : mstate) : Prop :=
  rest s = w ++ rest s' /\ pos s' = (pos s + List.length w)%nat
  /\ groups s' = groups s.

(** The states a greedy repetition of one character class leaves, longest
    first. *)
Fixpoint backoff (ok : char -> bool) (p : nat) (l : str)
  (g : list (nat * (nat * nat))) : list mstate :=
  match l with
  | c :: t =>
      if ok c then backoff ok (S p) t g ++ [MState p l g] else [MState p l g]
  | [] => [MState p [] g]
  end.

Definition not_newline (c : char) : bool := negb (c =? LF).

(** *** The listing *)

Section SpecDefs.
Context {db : UnicodeDb}.

(** Four digits; and a directory name as the specification has it, read as
    the whole name: a year, or two years joined by an underscore. *)
Definition is_year (w : str) : bool :=
  (List.length w =? 4)%nat && forallb is_digit w.

Definition date_name (n : str) : bool :=
  is_year n
  || (is_year (firstn 4 n)
      && match skipn 4 n with
         | u :: b => (u =? 95) && is_year b
         | [] => false
         end).

End SpecDefs.

(** The directory-name patterns as the specification writes them,
    [^\d{4}$] and [^\d{4}_\d{4}$]. *)
Definition name_pattern : regex :=
  Alt (cat [Bol; Rep 4 DIGIT; Eol])
      (cat [Bol; Rep 4 DIGIT; Lit 95; Rep 4 DIGIT; Eol]).

(** A listing table with one row and one link per text. *)
Definition listing (texts : list str) : node :=
  Tag (lit "table")
    (List.map (fun t => Tag (lit "tr")
                 [Tag (lit "td") [Tag (lit "a") [NavigableString t]]]) texts).

(** A page without any table, and a web that serves it. *)
Definition plain_page : node :=
  Tag (lit "[document]")
    [Tag (lit "html")
       [Tag (lit "body") [Tag (lit "p") [NavigableString (lit "moved")]]]].

Definition plain_web : Web :=
  {| requests_get := fun _ => Ok (Response 200 [] None);
     html_parser := fun _ => Ok plain_page |}.

(** A web that answers every request with [404]. *)
Definition missing_web : Web :=
  {| requests_get := fun _ => Ok (Response 404 [60; 104; 49; 62] None);
     html_parser := fun _ => Ok (Tag (lit "[document]") []) |}.

(** *** The header extractor *)

(** The elements before the first one that satisfies [p]. *)
Fixpoint before_first {A} (p : A -> bool) (l : list A) : option (list A) :=
  match l with
  | [] => None
  | x :: t =>
      if p x then Some [] else option_map (cons x) (before_first p t)
  end.

(** A line as [readlines] gives it: a newline can only be its last
    character. *)
Definition one_line (l : str) : Prop :=
  forall a b, l = a ++ LF :: b -> b = [].

(** A line without its final newline. *)
Definition chomp (l : str) : str :=
  if endswith l [LF] then removelast l else l.

(** The end of the first alternative, [[...]]]: a character of the set and
    a bracket. *)
Definition unit_close : regex := Seq (InSet UNIT_END) (Lit RBRACKET).

Section HeaderSpecDefs.
Context {db : UnicodeDb}.

(** A line of white space only that ends in a newline. *)
Definition blank_line (l : str) : bool :=
  forallb is_space l && endswith l [LF].

(** A line that is empty or white space only, as the specification says
    it. *)
Definition entirely_blank (l : str) : bool := forallb is_space l.

(** After [n] characters of [body], none a newline, stand a character of
    the last set of the first alternative and a closing bracket. *)
Definition bracket_at (body : str) (n : nat) : Prop :=
  forallb not_newline (firstn n body) = true
  /\ exists c t, skipn n body = c :: RBRACKET :: t
                 /\ in_set UNIT_END c = true.

(** The greatest such [n], found from the right. *)
Fixpoint last_unit (l : str) : option nat :=
  match l with
  | [] => None
  | c :: t =>
      match (if not_newline c then last_unit t else None) with
      | Some n => Some (S n)
      | None =>
          match t with
          | d :: _ =>
              if in_set UNIT_END c && (d =? RBRACKET) then Some O else None
          | [] => None
          end
      end
  end.

(** The first alternative as the specification words it: the line, its
    newline apart, starts with a capital letter and ends with a letter,
    [%], the degree sign, [|] or a closing bracket. *)
Definition spec_pattern_A (line : str) : bool :=
  match chomp line with
  | u :: t =>
      in_set UPPER u
      && in_set (UNIT_END ++ [CChar RBRACKET]) (last (u :: t) 0)
  | [] => false
  end.

End HeaderSpecDefs.

(** *** The file system *)

(** The entry at [p] set to [x]. *)
Definition put (p : path) (x : entry) (e : entry) : entry :=
  update p (fun _ => x) e.

Definition mem_name (n : str) (ns : list str) : bool :=
  existsb (str_eqb n) ns.

(** Two paths that part at some component: neither is above the other. *)
Fixpoint diverge (p q : path) : bool :=
  match p, q with
  | a :: p', b :: q' => if str_eqb a b then diverge p' q' else true
  | _, _ => false
  end.

(** The child [n] of a directory set to [e]. *)
Definition set_child (n : str) (e : entry) (cs : list (str * entry))
  : list (str * entry) :=
  List.map (fun c => if str_eqb (fst c) n then (fst c, e) else c) cs.

(** The subdirectories in [ns] emptied. *)
Definition emptied (ns : list str) (cs : list (str * entry))
  : list (str * entry) :=
  List.map (fun c => if mem_name (fst c) ns then (fst c, Dir []) else c) cs.

(** A tree with files and directories inside a directory. *)
Definition nested_files : entry :=
  Dir [(lit "data",
        Dir [(lit "a.csv", File [49]);
             (lit "zips", Dir [(lit "x.zip", File [80; 75]);
                               (lit "old", Dir [(lit "y.zip", File [])])]);
             (lit "b.csv", File []);
             (lit "empty", Dir [])]);
       (lit "info", Dir [(lit "k.txt", File [])])].

(** A tree with three delimited files of 10, 5 and 7 bytes. *)
Definition sample_files : entry :=
  Dir [(lit "data",
        Dir [(lit "k_1.csv", File (repeat 49 10));
             (lit "k_2.csv", File (repeat 50 5));
             (lit "notes.txt", File [110; 111]);
             (lit "k_3.csv", File (repeat 51 7))]);
       (lit "info", Dir [(lit "k_format.txt", File [])])].

(** *** Data frames *)

(** The columns of a file read with [header=None]. *)
Definition positional (k : nat) : list label := List.map LInt (seq 0 k).

(** A frame of [k] positional columns and [n] rows. *)
Definition table_of (k n : nat) (df : DataFrame) : Prop :=
  columns df = positional k
  /\ List.length (rows df) = n
  /\ Forall (fun r => List.length r = k) (rows df).

(** A reader for examples: one row of two equal cells per byte. *)
Definition byte_frame (data : list N) : DataFrame :=
  Frame (positional 2) (seq 0 (List.length data))
        (List.map (fun b => [Value [b]; Value [b]]) data).

Definition byte_rows : CsvReader :=
  {| parse_csv := fun data => Ok (byte_frame data) |}.

(** *** Further definitions for the properties *)




(** A web that serves one body of five bytes for every request, whole or
    broken off after two bytes. *)
Definition serving_web (breaks : option nat) : Web :=
  {| requests_get := fun _ => Ok (Response 200 [80; 75; 3; 4; 20] breaks);
     html_parser := fun _ => Ok (Tag (lit "[document]") []) |}.

(** A web that is down for the URLs that end in [b.txt]. *)
Definition flaky_web : Web :=
  {| requests_get := fun u =>
       if endswith u (lit "b.txt") then Raise ConnectionError
       else Ok (Response 404 [] None);
     html_parser := fun _ => Ok (Tag (lit "[document]") []) |}.


(** An unzipper for examples: the archive is written, as it is, to the
    file [out] of the directory; an archive of fewer than two bytes is
    found bad after the file is written. *)
Definition copy_unzipper : Unzipper :=
  {| extractall := fun data dir files =>
       match open_wb (dir ++ [lit "out"]) files with
       | Raise e => (files, Raise e)
       | Ok opened =>
           (append (dir ++ [lit "out"]) data opened,
            if (List.length data <? 2)%nat then Raise BadZipFile else Ok tt)
       end |}.

(** [h] is what [line] starts with. *)
Definition prefix_of (h line : str) : Prop := exists t, line = h ++ t.

(** What a header owes to its line: it is the start of the line, at least
    two characters long, without a newline after its first character, and
    it ends in a closing bracket or in a letter of the pattern. *)
Definition header_shape {db : UnicodeDb} (h line : str) : Prop :=
  prefix_of h line
  /\ (2 <= List.length h)%nat
  /\ forallb not_newline (tl h) = true
  /\ exists body c,
       h = body ++ [c]
       /\ (c = RBRACKET \/ in_set (UPPER ++ LOWER) c = true).

(** A tree in which a directory has the name of a delimited file. *)
Definition csv_named_directory : entry :=
  Dir [(lit "data",
        Dir [(lit "a.csv", File [49]);
             (lit "b.csv", Dir []);
             (lit "c.csv", File [50])])].

(** * Properties *)

(** ** Generic facts on results and lists *)

Lemma hd_error_app {A} (l1 l2 : list A) :
  hd_error (l1 ++ l2) =
  match hd_error l1 with Some x => Some x | None => hd_error l2 end.
Proof. destruct l1; reflexivity. Qed.

Lemma hd_error_some_in {A} (l : list A) (x : A) :
  hd_error l = Some x -> In x l.
Proof. destruct l; simpl; [discriminate | intros [= ->]; now left]. Qed.

Lemma hd_error_none_nil {A} (l : list A) : hd_error l = None -> l = [].
Proof. destruct l; [reflexivity | discriminate]. Qed.

Lemma startswith_app (s p : str) : startswith (p ++ s) p = true.
Proof.
  induction p as [|c p IH]; simpl; [now destruct s|].
  now rewrite N.eqb_refl, IH.
Qed.

Lemma startswith_inv (s p : str) :
  startswith s p = true -> exists t, s = p ++ t.
Proof.
  revert s; induction p as [|c p IH]; intros s H; simpl in *.
  - now exists s.
  - destruct s as [|d s]; [discriminate|].
    apply andb_true_iff in H as [Hc Hp]. apply N.eqb_eq in Hc; subst d.
    destruct (IH _ Hp) as [t ->]. now exists t.
Qed.

Lemma endswith_iff (s p : str) :
  endswith s p = true <-> exists t, s = t ++ p.
Proof.
  unfold endswith; split.
  - intros H. apply startswith_inv in H as [t Ht].
    exists (rev t). rewrite <- (rev_involutive s), Ht, rev_app_distr.
    now rewrite rev_involutive.
  - intros [t ->]. rewrite rev_app_distr. apply startswith_app.
Qed.

Lemma replace_char_absent (c : char) (new s : str) :
  forallb (fun d => negb (d =? c)) s = true -> replace_char c new s = s.
Proof.
  unfold replace_char. induction s as [|d s IH]; simpl; [reflexivity|].
  intros H. apply andb_true_iff in H as [Hd Hs].
  apply negb_true_iff in Hd. rewrite Hd. simpl. now rewrite IH.
Qed.

Lemma replace_char_app (c : char) (new a b : str) :
  replace_char c new (a ++ b) = replace_char c new a ++ replace_char c new b.
Proof. unfold replace_char. apply flat_map_app. Qed.

Lemma forallb_eq {A} (f g : A -> bool) (l : list A) :
  (forall x, f x = g x) -> forallb f l = forallb g l.
Proof.
  intros E. induction l as [|x l IH]; simpl; [reflexivity|].
  now rewrite E, IH.
Qed.

(** ** The matcher, by membership *)

Section MatcherFacts.
Context {db : UnicodeDb}.

Lemma mstate_eta (s : mstate) : MState (pos s) (rest s) (groups s) = s.
Proof. now destruct s. Qed.

Lemma after_eq s w t s' :
  rest s = w ++ t ->
  s' = MState (pos s + List.length w) t (groups s) -> after s w s'.
Proof. intros H ->. now repeat split. Qed.

Lemma after_inv s w s' :
  after s w s' ->
  s' = MState (pos s + List.length w) (skipn (List.length w) (rest s))
         (groups s).
Proof.
  intros (H & Hp & Hg). rewrite H, skipn_app, skipn_all, Nat.sub_diag.
  simpl. rewrite <- Hp, <- Hg. now destruct s'.
Qed.

Lemma after_nil s : after s [] s.
Proof. repeat split; simpl; lia. Qed.

Lemma after_trans s w s' w' s'' :
  after s w s' -> after s' w' s'' -> after s (w ++ w') s''.
Proof.
  intros (H1 & P1 & G1) (H2 & P2 & G2). repeat split.
  - now rewrite H1, H2, app_assoc.
  - rewrite length_app. lia.
  - congruence.
Qed.

Lemma in_one ok s s' :
  In s' (one ok s) <-> exists c, ok c = true /\ after s [c] s'.
Proof.
  unfold one. split.
  - destruct (rest s) as [|c t] eqn:E; [intros []|].
    destruct (ok c) eqn:O; [|intros []].
    intros [<-|[]]. exists c. split; [assumption|].
    unfold after, advance; simpl. repeat split; [assumption | lia].
  - intros (c & O & A). pose proof (after_inv A) as ->.
    destruct A as (H & _). simpl in H. rewrite H, O. simpl. left.
    unfold advance. f_equal. lia.
Qed.

Lemma in_seq a b s s'' :
  In s'' (run (Seq a b) s) <->
  exists s', In s' (run a s) /\ In s'' (run b s').
Proof. simpl. apply in_flat_map. Qed.

Lemma in_rep_one ok n s s' :
  In s' (rep_loop (one ok) n s) <->
  exists w, List.length w = n /\ forallb ok w = true /\ after s w s'.
Proof.
  revert s; induction n as [|n IH]; intros s; simpl.
  - split.
    + intros [<-|[]]. exists []. repeat split; simpl; lia.
    + intros (w & L & _ & A). destruct w; [|discriminate].
      left. apply after_inv in A. simpl in A. rewrite Nat.add_0_r in A.
      rewrite A. symmetry. apply mstate_eta.
  - rewrite in_flat_map. split.
    + intros (s1 & H1 & H2). apply in_one in H1 as (c & O & A1).
      apply IH in H2 as (w & L & F & A2).
      exists (c :: w). simpl. rewrite O, F.
      split; [lia|]. split; [reflexivity|].
      exact (after_trans A1 A2).
    + intros (w & L & F & A). destruct w as [|c w]; [discriminate|].
      simpl in F. apply andb_true_iff in F as [O F].
      destruct A as (H & P & G).
      exists (MState (S (pos s)) (w ++ rest s') (groups s)). split.
      * apply in_one. exists c. split; [assumption|].
        repeat split; simpl; [assumption | lia].
      * apply IH. exists w. simpl in *.
        split; [lia|]. split; [assumption|].
        repeat split; simpl; [lia | assumption].
Qed.

Lemma in_bol s s' : In s' (run Bol s) <-> pos s = O /\ s' = s.
Proof.
  simpl. destruct (Nat.eqb_spec (pos s) 0); simpl; intuition congruence.
Qed.

Lemma in_eol s s' :
  In s' (run Eol s) <-> s' = s /\ (rest s = [] \/ rest s = [LF]).
Proof.
  simpl. destruct (rest s) as [|c [|d t]]; simpl.
  - intuition.
  - destruct (N.eqb_spec c LF); simpl; [subst; intuition|].
    intuition; try discriminate. congruence.
  - intuition discriminate.
Qed.

Lemma matches_iff p subject :
  matches p subject = true <-> exists m, In m (run p (MState 0 subject [])).
Proof.
  unfold matches, re_match.
  destruct (run p (MState 0 subject [])) as [|m l]; simpl.
  - split; [discriminate | intros [m []]].
  - split; [intros _; exists m; now left | reflexivity].
Qed.

Lemma star_one ok fuel s :
  (List.length (rest s) < fuel)%nat ->
  star_loop (one ok) fuel s = backoff ok (pos s) (rest s) (groups s).
Proof.
  revert s; induction fuel as [|f IH]; intros [p l g] L; simpl in *; [lia|].
  unfold one; simpl. destruct l as [|c t]; simpl; [reflexivity|].
  destruct (ok c); simpl; [|reflexivity].
  assert ((p <? S p)%nat = true) as -> by (apply Nat.ltb_lt; lia).
  rewrite app_nil_r. unfold advance; simpl. rewrite IH by (simpl in *; lia).
  reflexivity.
Qed.

Lemma backoff_last ok p l g : In (MState p l g) (backoff ok p l g).
Proof.
  destruct l as [|c t]; simpl; [now left|].
  destruct (ok c); [apply in_or_app; right|]; now left.
Qed.

Lemma in_backoff ok p l g s' :
  In s' (backoff ok p l g) <->
  exists w, forallb ok w = true /\ after (MState p l g) w s'.
Proof.
  revert p; induction l as [|c t IH]; intros p; simpl.
  - split.
    + intros [<-|[]]. exists []. split; [reflexivity | apply after_nil].
    + intros (w & _ & A). left. destruct A as (R & P & G); simpl in *.
      symmetry in R. apply app_eq_nil in R as [-> R].
      destruct s'; simpl in *. subst. f_equal. lia.
  - split.
    + intros H.
      assert (In s' (backoff ok (S p) t g) /\ ok c = true
              \/ s' = MState p (c :: t) g) as [[H1 O]| ->].
      { destruct (ok c); [apply in_app_iff in H as [H|[<-|[]]]|destruct H as [<-|[]]]; auto. }
      * apply IH in H1 as (w & F & (R & P & G)); simpl in *.
        exists (c :: w); simpl. rewrite O, F. split; [reflexivity|].
        repeat split; simpl; [now rewrite R | lia | assumption].
      * exists []. split; [reflexivity | apply after_nil].
    + intros (w & F & A). destruct w as [|d w].
      * apply after_inv in A; simpl in A. rewrite Nat.add_0_r in A. subst s'.
        apply (backoff_last ok p (c :: t) g).
      * destruct A as (R & P & G); simpl in *. injection R as <- R.
        apply andb_true_iff in F as [O F]. rewrite O.
        apply in_or_app. left. apply IH. exists w. split; [assumption|].
        repeat split; simpl; [assumption | lia | assumption].
Qed.

Lemma in_star_set items s s' :
  In s' (run (Star (InSet items)) s) <->
  exists w, forallb (in_set items) w = true /\ after s w s'.
Proof.
  change (run (Star (InSet items)) s)
    with (star_loop (one (in_set items)) (S (List.length (rest s))) s).
  rewrite star_one by lia. rewrite in_backoff. now rewrite mstate_eta.
Qed.

Lemma in_plus_set items s s' :
  In s' (run (Plus (InSet items)) s) <->
  exists c w, in_set items c = true /\ forallb (in_set items) w = true
              /\ after s (c :: w) s'.
Proof.
  change (run (Plus (InSet items)) s)
    with (flat_map (run (Star (InSet items))) (run (InSet items) s)).
  rewrite in_flat_map. split.
  - intros (s1 & H1 & H2). apply in_one in H1 as (c & O & A1).
    apply in_star_set in H2 as (w & F & A2).
    exists c, w. repeat split; try assumption; apply (after_trans A1 A2).
  - intros (c & w & O & F & (R & P & G)); simpl in *.
    exists (MState (S (pos s)) (w ++ rest s') (groups s)). split.
    + apply in_one. exists c. split; [assumption|].
      repeat split; simpl; [assumption | lia].
    + apply in_star_set. exists w. split; [assumption|].
      repeat split; simpl; [lia | assumption].
Qed.

Lemma in_group i a s s' :
  In s' (run (Group i a) s) <->
  exists s1, In s1 (run a s) /\ s' = close_group i (pos s) s1.
Proof.
  simpl. rewrite in_map_iff. split; intros (s1 & H1 & H2); exists s1; auto.
Qed.

Lemma in_any s s' :
  In s' (run Any s) <-> exists c, c <> LF /\ after s [c] s'.
Proof.
  simpl. rewrite in_one. split; intros (c & O & A); exists c; split; try assumption.
  - apply negb_true_iff in O. now apply N.eqb_neq.
  - apply negb_true_iff. now apply N.eqb_neq.
Qed.

Lemma in_alt a b s s' :
  In s' (run (Alt a b) s) <-> In s' (run a s) \/ In s' (run b s).
Proof. simpl. apply in_app_iff. Qed.

End MatcherFacts.

(** ** The pattern of the date directories *)

Section DatesFacts.
Context {db : UnicodeDb}.

Lemma in_set_digit c : in_set [CDigit] c = is_digit c.
Proof. unfold in_set; simpl. apply orb_false_r. Qed.

Lemma in_lit c s s' :
  In s' (run (Lit c) s) <-> after s [c] s'.
Proof.
  simpl. rewrite in_one. split.
  - intros (d & E & A). apply N.eqb_eq in E. now subst.
  - intros A. exists c. split; [apply N.eqb_refl | assumption].
Qed.

Lemma in_year s s' :
  In s' (run (Rep 4 DIGIT) s) <-> exists w, is_year w = true /\ after s w s'.
Proof.
  change (run (Rep 4 DIGIT) s) with (rep_loop (one (in_set [CDigit])) 4 s).
  rewrite in_rep_one. unfold is_year.
  split; intros (w & H); exists w.
  - destruct H as (L & F & A). split; [|assumption].
    rewrite L. simpl. rewrite <- F. apply forallb_eq.
    intros c. symmetry. apply in_set_digit.
  - destruct H as (Y & A). apply andb_true_iff in Y as [L F].
    apply Nat.eqb_eq in L. split; [assumption|]. split; [|assumption].
    rewrite <- F. apply forallb_eq. intros c. apply in_set_digit.
Qed.

(** The tail [\/$] of both alternatives. *)
Lemma in_slash_eol s s' :
  In s' (run (cat [Lit SLASH; Eol]) s) <->
  after s [SLASH] s' /\ (rest s' = [] \/ rest s' = [LF]).
Proof.
  simpl cat. rewrite in_seq. split.
  - intros (s1 & H1 & H2). apply in_lit in H1. apply in_eol in H2 as [-> H2].
    now split.
  - intros [A E]. exists s'. split; [now apply in_lit | now apply in_eol].
Qed.

Lemma date_name_year w : is_year w = true -> date_name w = true.
Proof. unfold date_name. now intros ->. Qed.

Lemma is_year_length w : is_year w = true -> List.length w = 4%nat.
Proof.
  unfold is_year. intros H. apply andb_true_iff in H as [L _].
  now apply Nat.eqb_eq.
Qed.

Lemma date_name_range a b :
  is_year a = true -> is_year b = true -> date_name (a ++ 95 :: b) = true.
Proof.
  intros Ha Hb. unfold date_name. pose proof (is_year_length _ Ha) as L.
  destruct a as [|a1 [|a2 [|a3 [|a4 [|a5 a]]]]]; try discriminate L.
  cbn [app firstn skipn]. rewrite Ha, Hb, N.eqb_refl. apply orb_true_r.
Qed.

Lemma date_name_inv n :
  date_name n = true ->
  is_year n = true \/
  exists a b, n = a ++ 95 :: b /\ is_year a = true /\ is_year b = true.
Proof.
  unfold date_name. intros H. apply orb_true_iff in H as [H|H]; [now left|].
  right. apply andb_true_iff in H as [Ha Hb].
  destruct (skipn 4 n) as [|u b] eqn:E; [discriminate|].
  apply andb_true_iff in Hb as [Hu Hb]. apply N.eqb_eq in Hu; subst u.
  exists (firstn 4 n), b. split; [|now split].
  rewrite <- (firstn_skipn 4 n) at 1. now rewrite E.
Qed.

(** [re.match(dates_pattern, t)] succeeds exactly on a year or a range of
    years, a slash, and at most one final newline. *)
Lemma matches_dates t :
  matches dates_pattern t = true <->
  exists n tail,
    date_name n = true /\ t = n ++ SLASH :: tail /\ (tail = [] \/ tail = [LF]).
Proof.
  rewrite matches_iff. unfold dates_pattern. split.
  - intros (m & H). simpl run in H. apply in_app_iff in H as [H|H].
    + change (In m (run (Seq Bol (Seq (Rep 4 DIGIT) (cat [Lit SLASH; Eol])))
                      (MState 0 t []))) in H.
      apply in_seq in H as (s0 & H0 & H).
      apply in_bol in H0 as [_ ->].
      apply in_seq in H as (s1 & H1 & H).
      apply in_year in H1 as (w & Y & A1).
      apply in_slash_eol in H as [A2 E].
      exists w, (rest m). split; [now apply date_name_year|].
      destruct A1 as (R1 & _), A2 as (R2 & _). simpl in R1, R2.
      rewrite R1, R2. auto.
    + change (In m (run (Seq Bol (Seq (Rep 4 DIGIT) (Seq (Lit 95)
                 (Seq (Rep 4 DIGIT) (cat [Lit SLASH; Eol])))))
                      (MState 0 t []))) in H.
      apply in_seq in H as (s0 & H0 & H).
      apply in_bol in H0 as [_ ->].
      apply in_seq in H as (s1 & H1 & H).
      apply in_year in H1 as (a & Ya & A1).
      apply in_seq in H as (s2 & H2 & H).
      apply in_lit in H2.
      apply in_seq in H as (s3 & H3 & H).
      apply in_year in H3 as (b & Yb & A3).
      apply in_slash_eol in H as [A4 E].
      exists (a ++ 95 :: b), (rest m). split; [now apply date_name_range|].
      destruct A1 as (R1 & _), H2 as (R2 & _), A3 as (R3 & _), A4 as (R4 & _).
      simpl in R1, R2, R3, R4. rewrite R1, R2, R3, R4, <- app_assoc. auto.
  - intros (n & tail & D & -> & E).
    apply date_name_inv in D as [Y|(a & b & -> & Ya & Yb)].
    + exists (MState (List.length n + 1) tail []).
      simpl run. apply in_app_iff. left.
      change (In (MState (List.length n + 1) tail [])
                (run (Seq Bol (Seq (Rep 4 DIGIT) (cat [Lit SLASH; Eol])))
                      (MState 0 (n ++ SLASH :: tail) []))).
      apply in_seq. eexists. split; [apply in_bol; split; reflexivity|].
      apply in_seq. exists (MState (List.length n) (SLASH :: tail) []). split.
      * apply in_year. exists n. split; [assumption|]. now repeat split.
      * apply in_slash_eol. split; [|assumption]. now repeat split.
    + exists (MState (List.length a + 1 + List.length b + 1) tail []).
      simpl run. apply in_app_iff. right.
      change (In (MState (List.length a + 1 + List.length b + 1) tail [])
               (run (Seq Bol (Seq (Rep 4 DIGIT) (Seq (Lit 95)
                 (Seq (Rep 4 DIGIT) (cat [Lit SLASH; Eol])))))
                      (MState 0 ((a ++ 95 :: b) ++ SLASH :: tail) []))).
      rewrite <- app_assoc. simpl app.
      apply in_seq. eexists. split; [apply in_bol; split; reflexivity|].
      apply in_seq. exists (MState (List.length a) (95 :: b ++ SLASH :: tail) []). split.
      { apply in_year. exists a. split; [assumption|]. now repeat split. }
      apply in_seq. exists (MState (List.length a + 1) (b ++ SLASH :: tail) []). split.
      { apply in_lit. now repeat split. }
      apply in_seq. exists (MState (List.length a + 1 + List.length b) (SLASH :: tail) []). split.
      { apply in_year. exists b. split; [assumption|]. now repeat split. }
      apply in_slash_eol. split; [|assumption]. now repeat split.
Qed.
End DatesFacts.

(** ** The pattern of the info files *)

Section InfoFacts.
Context {db : UnicodeDb}.

Lemma in_set_word c : in_set [CWord] c = is_word c.
Proof. unfold in_set; simpl. apply orb_false_r. Qed.

(** [re.match(info_pattern, t)] succeeds exactly on one or more word
    characters, any character but a newline, [txt], and at most one final
    newline. *)
Lemma matches_info t :
  matches info_pattern t = true <->
  exists w c tail,
    w <> [] /\ forallb is_word w = true /\ c <> LF
    /\ t = w ++ c :: lit "txt" ++ tail /\ (tail = [] \/ tail = [LF]).
Proof.
  rewrite matches_iff. unfold info_pattern. simpl cat. split.
  - intros (m & H).
    apply in_seq in H as (s1 & H1 & H).
    apply in_group in H1 as (s0 & H0 & ->).
    apply in_plus_set in H0 as (c0 & w & O & F & (R0 & _)).
    apply in_seq in H as (s2 & H2 & H). apply in_any in H2 as (c & Hc & (R2 & _)).
    apply in_seq in H as (s3 & H3 & H). apply in_lit in H3 as (R3 & _).
    apply in_seq in H as (s4 & H4 & H). apply in_lit in H4 as (R4 & _).
    apply in_seq in H as (s5 & H5 & H). apply in_lit in H5 as (R5 & _).
    apply in_eol in H as [-> E].
    simpl in *. exists (c0 :: w), c, (rest s5).
    split; [discriminate|]. split.
    { rewrite orb_false_r in O. cbn [forallb]. rewrite O. simpl. rewrite <- F.
      apply forallb_eq. intros x. symmetry. apply in_set_word. }
    split; [assumption|]. split; [|assumption].
    rewrite R0, R2, R3, R4, R5. reflexivity.
  - intros (w & c & tail & Hw & F & Hc & -> & E).
    destruct w as [|c0 w]; [contradiction|]. simpl in F.
    apply andb_true_iff in F as [O F].
    set (n := List.length w).
    exists (MState (n + 5) tail [(1, (0, S n))]%nat).
    apply in_seq.
    exists (MState (S n) (c :: lit "txt" ++ tail) [(1, (0, S n))]%nat). split.
    { apply in_group.
      exists (MState (S n) (c :: lit "txt" ++ tail) []). split; [|reflexivity].
      apply in_plus_set. exists c0, w. rewrite in_set_word, O.
      split; [reflexivity|]. split.
      - rewrite <- F. apply forallb_eq. intros x. apply in_set_word.
      - repeat split. }
    apply in_seq. exists (MState (n + 2) (lit "txt" ++ tail) [(1, (0, S n))]%nat). split.
    { apply in_any. exists c. split; [assumption|]. repeat split; simpl; lia. }
    apply in_seq. exists (MState (n + 3) (120 :: 116 :: tail) [(1, (0, S n))]%nat). split.
    { apply in_lit. repeat split; simpl; lia. }
    apply in_seq. exists (MState (n + 4) (116 :: tail) [(1, (0, S n))]%nat). split.
    { apply in_lit. repeat split; simpl; lia. }
    apply in_seq. exists (MState (n + 5) tail [(1, (0, S n))]%nat). split.
    { apply in_lit. repeat split; simpl; lia. }
    apply in_eol. split; [reflexivity | assumption].
Qed.
End InfoFacts.

(** ** The classifiers and the table *)

Section ListingFacts.
Context {db : UnicodeDb}.

Lemma filter_matching_strings p texts :
  filter_matching p (List.map Some texts) = Ok (filter (matches p) texts).
Proof.
  induction texts as [|t texts IH]; simpl; [reflexivity|].
  rewrite IH. simpl. reflexivity.
Qed.

Lemma filter_matching_none p seqs :
  In None seqs -> filter_matching p seqs = Raise TypeError.
Proof.
  induction seqs as [|[s|] seqs IH]; simpl; intros H.
  - destruct H.
  - destruct H as [H|H]; [discriminate|]. now rewrite IH.
  - reflexivity.
Qed.

Lemma all_strings (seqs : list (option str)) :
  ~ In None seqs -> exists texts, seqs = List.map Some texts.
Proof.
  induction seqs as [|[s|] seqs IH]; simpl; intros H.
  - now exists [].
  - destruct IH as [texts ->]; [tauto|]. now exists (s :: texts).
  - tauto.
Qed.

Lemma is_digit_not_slash c : is_digit c = true -> c <> SLASH.
Proof. intros H ->. discriminate H. Qed.

Lemma is_word_not_slash c : is_word c = true -> c <> SLASH.
Proof. intros H ->. discriminate H. Qed.

Lemma strip_slash_free (f : char -> bool) w :
  (forall c, f c = true -> c <> SLASH) ->
  forallb f w = true -> strip_slash w = w.
Proof.
  intros Hf F. apply replace_char_absent.
  rewrite forallb_forall in *. intros c Hc. apply negb_true_iff, N.eqb_neq.
  apply Hf, F, Hc.
Qed.

Lemma strip_slash_year w : is_year w = true -> strip_slash w = w.
Proof.
  unfold is_year. intros H. apply andb_true_iff in H as [_ F].
  exact (strip_slash_free _ _ is_digit_not_slash F).
Qed.

Lemma strip_slash_name n : date_name n = true -> strip_slash n = n.
Proof.
  intros H. apply date_name_inv in H as [Y|(a & b & -> & Ya & Yb)].
  - now apply strip_slash_year.
  - unfold strip_slash. rewrite replace_char_app. fold (strip_slash a).
    rewrite strip_slash_year by assumption.
    change (replace_char SLASH [] (95 :: b)) with (95 :: strip_slash b).
    now rewrite strip_slash_year.
Qed.

Lemma strip_slash_entry n tail :
  date_name n = true -> (tail = [] \/ tail = [LF]) ->
  strip_slash (n ++ SLASH :: tail) = n ++ tail.
Proof.
  intros D E. unfold strip_slash. rewrite replace_char_app.
  fold (strip_slash n). rewrite strip_slash_name by assumption.
  now destruct E as [-> | ->].
Qed.


Lemma get_dates_strings table texts :
  link_strings table = List.map Some texts ->
  get_dates_from_table table =
  Ok (List.map strip_slash (filter (matches dates_pattern) texts)).
Proof.
  intros E. unfold get_dates_from_table.
  now rewrite E, filter_matching_strings.
Qed.

Lemma get_info_strings table texts :
  link_strings table = List.map Some texts ->
  get_info_files_from_table table =
  Ok (List.map strip_slash (filter (matches info_pattern) texts)).
Proof.
  intros E. unfold get_info_files_from_table.
  now rewrite E, filter_matching_strings.
Qed.

(** C6, amended.  When every link of the table has a plain text, the date
    directories are the texts [re.match] accepts for the pattern, in table
    order and with their repetitions, each without its slash; the accepted
    texts are exactly a name (four digits, or four digits, an underscore and
    four digits), a slash and at most one final newline, which stays in the
    result; so a name whose text is the name and a slash is in the result. *)
Theorem get_dates_from_table_spec (table : node) (texts : list str) :
  link_strings table = List.map Some texts ->
  get_dates_from_table table =
    Ok (List.map strip_slash (filter (matches dates_pattern) texts))
  /\ (forall t, matches dates_pattern t = true <->
        exists n tail, date_name n = true /\ t = n ++ SLASH :: tail
                       /\ (tail = [] \/ tail = [LF]))
  /\ (forall n tail, date_name n = true -> (tail = [] \/ tail = [LF]) ->
        strip_slash (n ++ SLASH :: tail) = n ++ tail)
  /\ (forall n, date_name n = true -> In (n ++ [SLASH]) texts ->
        In n (List.map strip_slash (filter (matches dates_pattern) texts))).
Proof.
  intros E. split; [now apply get_dates_strings|].
  split; [apply matches_dates|]. split; [apply strip_slash_entry|].
  intros n D I. apply in_map_iff. exists (n ++ [SLASH]). split.
  - rewrite strip_slash_entry by auto. apply app_nil_r.
  - apply filter_In. split; [assumption|].
    apply matches_dates. exists n, []. auto.
Qed.

Lemma txt_suffix_inv (s w tail : str) (c : char) :
  s ++ lit ".txt" = w ++ c :: lit "txt" ++ tail ->
  (tail = [] \/ tail = [LF]) -> w = s /\ c = 46 /\ tail = [].
Proof.
  intros E T. apply (f_equal (@rev char)) in E.
  rewrite !rev_app_distr in E. cbn [rev lit app] in E.
  rewrite !rev_app_distr in E.
  destruct T as [-> | ->]; cbn in E; [|discriminate E].
  injection E as E1 E2. repeat split; [|now symmetry].
  rewrite <- (rev_involutive w), <- (rev_involutive s). now f_equal.
Qed.

Lemma matches_info_txt (s : str) :
  matches info_pattern (s ++ lit ".txt") = true <->
  s <> [] /\ forallb is_word s = true.
Proof.
  rewrite matches_info. split.
  - intros (w & c & tail & Hw & F & _ & E & T).
    destruct (@txt_suffix_inv s w tail c E T) as (-> & _ & _). now split.
  - intros [Hs F]. exists s, 46, []. repeat split; auto. discriminate.
Qed.

Lemma matches_info_ends (t : str) :
  matches info_pattern t = true ->
  endswith t (lit "txt") = true \/ endswith t (lit "txt" ++ [LF]) = true.
Proof.
  rewrite matches_info. intros (w & c & tail & _ & _ & _ & -> & [-> | ->]).
  - left. apply endswith_iff. exists (w ++ [c]).
    rewrite app_nil_r, <- app_assoc. reflexivity.
  - right. apply endswith_iff. exists (w ++ [c]).
    rewrite <- app_assoc. reflexivity.
Qed.

(** C5, amended.  When every link of the table has a plain text, the info
    files are the texts [re.match] accepts for the pattern, in table order,
    each without its slashes.  A text that ends in [.txt] is accepted
    exactly when what stands before [.txt] is one or more word characters,
    and it is then kept as it is; a text that ends neither in [txt] nor in
    [txt] and one newline is not accepted. *)
Theorem get_info_files_from_table_spec (table : node) (texts : list str) :
  link_strings table = List.map Some texts ->
  get_info_files_from_table table =
    Ok (List.map strip_slash (filter (matches info_pattern) texts))
  /\ (forall s, matches info_pattern (s ++ lit ".txt") = true <->
                s <> [] /\ forallb is_word s = true)
  /\ (forall s, forallb is_word s = true ->
                strip_slash (s ++ lit ".txt") = s ++ lit ".txt")
  /\ (forall t, matches info_pattern t = true ->
                endswith t (lit "txt") = true
                \/ endswith t (lit "txt" ++ [LF]) = true).
Proof.
  intros E. split; [now apply get_info_strings|].
  split; [apply matches_info_txt|]. split; [|apply matches_info_ends].
  intros s F. unfold strip_slash. rewrite replace_char_app.
  fold (strip_slash s).
  now rewrite (@strip_slash_free is_word s is_word_not_slash F).
Qed.

(** C10.  A link without a plain text makes both classifiers raise
    [TypeError]; without such a link both return.  A link with two children
    or more, markup among its text, is such a link. *)
Theorem classifiers_need_plain_link_text (table : node) :
  (In None (link_strings table) ->
     get_dates_from_table table = Raise TypeError
     /\ get_info_files_from_table table = Raise TypeError)
  /\ (~ In None (link_strings table) ->
       exists dates files,
         get_dates_from_table table = Ok dates
         /\ get_info_files_from_table table = Ok files)
  /\ (forall name c1 c2 cs, string_of (Tag name (c1 :: c2 :: cs)) = None).
Proof.
  split; [|split; [|reflexivity]].
  - intros H. unfold get_dates_from_table, get_info_files_from_table.
    now rewrite !filter_matching_none.
  - intros H. apply all_strings in H as [texts E].
    rewrite get_dates_strings with (texts := texts) by exact E.
    rewrite get_info_strings with (texts := texts) by exact E. eauto.
Qed.

End ListingFacts.

Section TableFacts.
Context {web : Web}.

(** C4, amended.  With the page fetched and parsed, the result is the
    first table of the page in document order, and [None], returned and not
    raised, when the page has no table; an error of the fetch, and an error
    of the parser, propagate. *)
Theorem get_table_from_imgw_spec (url : str) :
  match requests_get url with
  | Raise e => get_table_from_imgw url = Raise e
  | Ok page =>
      match html_parser (content page) with
      | Raise e => get_table_from_imgw url = Raise e
      | Ok soup =>
          get_table_from_imgw url
          = Ok (hd_error (find_all (lit "table") soup))
          /\ (forallb (fun d => negb (is_tag (lit "table") d))
                      (descendants soup) = true
              <-> get_table_from_imgw url = Ok None)
      end
  end.
Proof.
  unfold get_table_from_imgw. destruct (requests_get url) as [page|e];
    simpl; [|reflexivity].
  destruct (html_parser (content page)) as [soup|e]; simpl; [|reflexivity].
  split; [reflexivity|]. unfold find, find_all.
  induction (descendants soup) as [|d l IH]; simpl.
  - tauto.
  - destruct (is_tag (lit "table") d); simpl; [|exact IH].
    split; discriminate.
Qed.

End TableFacts.

(** The theorem of C6 at a table of four links. *)
Lemma get_dates_from_table_witness :
  let texts := [lit "2001/"; lit "index.html"; lit "1991_1995/"; lit "2001/"] in
  link_strings (listing texts) = List.map Some texts
  /\ get_dates_from_table (db := ascii_db) (listing texts)
     = Ok [lit "2001"; lit "1991_1995"; lit "2001"].
Proof.
  exact (conj eq_refl
           (proj1 (get_dates_from_table_spec (db := ascii_db)
                     (listing [lit "2001/"; lit "index.html";
                               lit "1991_1995/"; lit "2001/"])
                     [lit "2001/"; lit "index.html"; lit "1991_1995/";
                      lit "2001/"] eq_refl))).
Defined.

(** C6 as stated fails.  The link text [2001/] followed by a newline is no
    name followed by a slash, and is kept (as [2001] and the newline);
    and, reading the patterns of the claim as [re.match] does, the name
    [2001] with a final newline matches while its link text, the name and a
    slash, is dropped. *)
Lemma get_dates_from_table_keeps_newline :
  get_dates_from_table (db := ascii_db) (listing [lit "2001/" ++ [LF]])
    = Ok [lit "2001" ++ [LF]]
  /\ (forall n, lit "2001/" ++ [LF] <> n ++ [SLASH])
  /\ matches (db := ascii_db) name_pattern (lit "2001" ++ [LF]) = true
  /\ get_dates_from_table (db := ascii_db)
       (listing [(lit "2001" ++ [LF]) ++ [SLASH]]) = Ok [].
Proof.
  split; [reflexivity|]. split; [|split; reflexivity].
  intros n H. apply (f_equal (@rev char)) in H.
  rewrite !rev_app_distr in H. cbn in H. discriminate H.
Qed.

(** The theorem of C5 at a table of three links. *)
Lemma get_info_files_from_table_witness :
  let texts := [lit "2001/"; lit "k_m_d_format.txt"; lit "k_m_t_format.txt"] in
  link_strings (listing texts) = List.map Some texts
  /\ get_info_files_from_table (db := ascii_db) (listing texts)
     = Ok [lit "k_m_d_format.txt"; lit "k_m_t_format.txt"].
Proof.
  exact (conj eq_refl
           (proj1 (get_info_files_from_table_spec (db := ascii_db)
                     (listing [lit "2001/"; lit "k_m_d_format.txt";
                               lit "k_m_t_format.txt"])
                     [lit "2001/"; lit "k_m_d_format.txt";
                      lit "k_m_t_format.txt"] eq_refl))).
Defined.

(** C5 as stated fails.  A name that ends in [.txt] and has a hyphen in its
    stem is dropped; a name that ends in a newline, not in [.txt], is
    kept. *)
Lemma get_info_files_from_table_not_by_suffix :
  get_info_files_from_table (db := ascii_db) (listing [lit "a-b.txt"]) = Ok []
  /\ endswith (lit "a-b.txt") (lit ".txt") = true
  /\ get_info_files_from_table (db := ascii_db)
       (listing [lit "a.txt" ++ [LF]]) = Ok [lit "a.txt" ++ [LF]]
  /\ endswith (lit "a.txt" ++ [LF]) (lit ".txt") = false.
Proof. repeat split. Qed.

(** Both counterexamples are ASCII texts: they hold in every database. *)
Lemma classifier_counterexamples_any_db (db : UnicodeDb) :
  get_dates_from_table (listing [lit "2001/" ++ [LF]]) = Ok [lit "2001" ++ [LF]]
  /\ get_info_files_from_table (listing [lit "a-b.txt"]) = Ok [].
Proof. split; reflexivity. Qed.

(** C4 as stated fails: a page without a table gives [None], not an
    error. *)
Lemma get_table_from_imgw_returns_none :
  get_table_from_imgw (web := plain_web) (lit "https://host/dir/") = Ok None
  /\ find_all (lit "table") plain_page = []
  /\ raises (get_table_from_imgw (web := plain_web) (lit "https://host/dir/"))
     = false.
Proof. repeat split. Qed.

(** ** The merger and the fetcher *)

Section MergerFacts.
Context {db : UnicodeDb} {reader : CsvReader}.

Lemma read_selected_none csv_dir pat files names :
  forallb (fun n => negb (selected pat n)) names = true ->
  read_selected csv_dir pat files names = Ok [].
Proof.
  induction names as [|n names IH]; simpl; [reflexivity|].
  intros H. apply andb_true_iff in H as [Hn H].
  apply negb_true_iff in Hn. rewrite Hn. now apply IH.
Qed.

(** C3.  A directory whose listing has no name that ends in [.csv] and
    passes the filter makes the merger raise: [pd.concat] of no frame is a
    [ValueError]. *)
Theorem merge_of_nothing_raises (csv_dir : path)
  (headers : option (list label)) (f_name_pattern : option regex)
  (files : entry) (names : list str) :
  listdir csv_dir files = Ok names ->
  forallb (fun n => negb (selected f_name_pattern n)) names = true ->
  merge_imgw_csv_files csv_dir headers f_name_pattern files
  = Raise ValueError.
Proof.
  intros L H. unfold merge_imgw_csv_files. rewrite L. simpl.
  now rewrite read_selected_none.
Qed.

Lemma realign_same (cols : list label) (row : list cell) :
  NoDup cols -> List.length row = List.length cols ->
  realign cols cols row = row.
Proof.
  unfold realign. revert row.
  induction cols as [|c cols IH]; intros [|x row] N L; try discriminate L;
    [reflexivity|].
  cbn [List.map cell_at].
  assert (label_eqb c c = true) as ->.
  { destruct c; simpl; [apply Nat.eqb_refl|].
    unfold str_eqb. now destruct (list_eq_dec N.eq_dec s s). }
  f_equal. inversion N as [|? ? Hc N']; subst.
  transitivity (List.map (cell_at cols row) cols);
    [|apply IH; [assumption | simpl in L; lia]].
  apply map_ext_in. intros l Hl. simpl.
  destruct (label_eqb c l) eqn:E; [|reflexivity].
  exfalso. apply Hc.
  destruct c, l; simpl in E; try discriminate.
  - apply Nat.eqb_eq in E. now subst.
  - unfold str_eqb in E. destruct (list_eq_dec N.eq_dec s s0); [now subst | discriminate].
Qed.


Lemma label_eqb_eq (a b : label) : label_eqb a b = true <-> a = b.
Proof.
  destruct a, b; simpl; try (split; [discriminate | intros [=]]).
  - rewrite Nat.eqb_eq. split; [now intros -> | now intros [= ->]].
  - unfold str_eqb. destruct (list_eq_dec N.eq_dec s s0) as [->|Hn].
    + tauto.
    + split; [discriminate | intros [= ->]; contradiction].
Qed.

Lemma mem_label_in (l : label) (ls : list label) :
  mem_label l ls = true <-> In l ls.
Proof.
  unfold mem_label. rewrite existsb_exists. split.
  - intros (x & Hx & E). apply label_eqb_eq in E. now subst.
  - intros H. exists l. split; [assumption | now apply label_eqb_eq].
Qed.

Lemma union_labels_fresh (seen ls t : list label) :
  NoDup (seen ++ ls) ->
  union_labels seen (ls ++ t) = union_labels (seen ++ ls) t.
Proof.
  revert seen; induction ls as [|l ls IH]; intros seen N; simpl.
  - now rewrite app_nil_r.
  - destruct (mem_label l seen) eqn:E.
    + apply mem_label_in in E. apply NoDup_remove_2 in N.
      exfalso. apply N. apply in_or_app. now left.
    + rewrite IH; rewrite <- app_assoc; [reflexivity | exact N].
Qed.

Lemma union_labels_known (seen ls : list label) :
  (forall l, In l ls -> In l seen) -> union_labels seen ls = seen.
Proof.
  induction ls as [|l ls IH]; intros H; simpl; [reflexivity|].
  assert (mem_label l seen = true) as ->
      by (apply mem_label_in, H; now left).
  apply IH. intros x Hx. apply H. now right.
Qed.

(** Frames of the same columns are stacked as they are. *)
Lemma concat_same (cols : list label) (f : DataFrame)
  (frames : list DataFrame) :
  NoDup cols ->
  Forall (fun g => columns g = cols
                   /\ Forall (fun r => List.length r = List.length cols)
                             (rows g)) (f :: frames) ->
  concat (f :: frames)
  = Ok (Frame cols (flat_map index (f :: frames))
              (flat_map rows (f :: frames))).
Proof.
  intros N F. unfold concat.
  assert (union_labels [] (flat_map columns (f :: frames)) = cols) as ->.
  { inversion F as [|? ? [Hc _] F']; subst. cbn [flat_map].
    rewrite (union_labels_fresh [] (columns f)) by exact N.
    apply union_labels_known. intros l Hl. apply in_flat_map in Hl as (g & Hg & Hl).
    rewrite Forall_forall in F'. destruct (F' g Hg) as [<- _]. exact Hl. }
  do 2 f_equal. induction F as [|g gs [Hc Hr] F IH]; [reflexivity|].
  cbn [flat_map]. rewrite IH. f_equal. rewrite Hc.
  clear -N Hr. induction Hr as [|r rs Hr Hrs IH]; [reflexivity|].
  simpl. now rewrite realign_same, IH.
Qed.

Lemma positional_nodup (k : nat) : NoDup (positional k).
Proof.
  unfold positional. apply Finite.Injective_map_NoDup; [|apply seq_NoDup].
  now intros x y [= ->].
Qed.

Lemma read_selected_filter csv_dir pat files names :
  read_selected csv_dir pat files names
  = map_r (fun n => read_csv (csv_dir ++ [n]) files)
          (filter (selected pat) names).
Proof.
  induction names as [|n names IH]; simpl; [reflexivity|].
  destruct (selected pat n); simpl; now rewrite IH.
Qed.

(** C7.  Three files of two columns and 10, 5 and 7 rows, the only
    entries of the listing that end in [.csv], merge into a frame of 22
    rows and 2 columns whose rows are theirs, stacked in the order of the
    listing; with two headers the columns take these labels and the index
    and the rows stay. *)
Theorem merge_three_files (csv_dir : path) (files : entry)
  (names : list str) (n1 n2 n3 : str) (f1 f2 f3 : DataFrame) :
  listdir csv_dir files = Ok names ->
  filter (selected None) names = [n1; n2; n3] ->
  read_csv (csv_dir ++ [n1]) files = Ok f1 ->
  read_csv (csv_dir ++ [n2]) files = Ok f2 ->
  read_csv (csv_dir ++ [n3]) files = Ok f3 ->
  table_of 2 10 f1 -> table_of 2 5 f2 -> table_of 2 7 f3 ->
  exists df,
    merge_imgw_csv_files csv_dir None None files = Ok df
    /\ shape df = (22, 2)%nat
    /\ columns df = positional 2
    /\ rows df = rows f1 ++ rows f2 ++ rows f3
    /\ forall a b,
         merge_imgw_csv_files csv_dir (Some [LStr a; LStr b]) None files
         = Ok (Frame [LStr a; LStr b] (index df) (rows df)).
Proof.
  intros L S R1 R2 R3 (C1 & N1 & W1) (C2 & N2 & W2) (C3 & N3 & W3).
  assert (concat [f1; f2; f3]
          = Ok (Frame (positional 2) (flat_map index [f1; f2; f3])
                      (flat_map rows [f1; f2; f3]))) as Hc.
  { apply concat_same; [apply positional_nodup|].
    repeat constructor; assumption. }
  exists (Frame (positional 2) (flat_map index [f1; f2; f3])
                (flat_map rows [f1; f2; f3])).
  unfold merge_imgw_csv_files. rewrite L. cbn [bind].
  rewrite read_selected_filter, S. cbn [map_r]. rewrite R1, R2, R3.
  cbn [bind]. rewrite Hc. cbn [bind flat_map rows columns index shape].
  rewrite !app_nil_r. split; [reflexivity|]. split.
  { unfold shape. cbn [rows columns]. rewrite !length_app, N1, N2, N3.
    reflexivity. }
  repeat split.
Qed.

End MergerFacts.

Section FetcherFacts.
Context {web : Web}.

(** C8.  A response whose status is not 200 leaves the files as they
    are; the failure is printed and nothing is raised. *)
Theorem download_url_not_found (url : str) (save_path : path)
  (chunk_size : nat) (r : response) (w : world) :
  requests_get url = Ok r ->
  status_code r <> 200%Z ->
  download_url url save_path chunk_size w
  = (World (fs w) (stdout w ++ [MsgNoFile]), Ok tt).
Proof.
  intros G S. unfold download_url. rewrite G.
  apply Z.eqb_neq in S. rewrite S. reflexivity.
Qed.

End FetcherFacts.

Lemma byte_frame_table (data : list N) :
  table_of 2 (List.length data) (byte_frame data).
Proof.
  split; [reflexivity|]. split; [apply length_map|].
  apply Forall_forall. intros r Hr. apply in_map_iff in Hr as (b & <- & _).
  reflexivity.
Qed.

(** The theorem of C3 at a directory that holds one text file. *)
Lemma merge_of_nothing_raises_witness :
  listdir [lit "info"] sample_files = Ok [lit "k_format.txt"]
  /\ merge_imgw_csv_files (db := ascii_db) (reader := byte_rows)
       [lit "info"] None None sample_files = Raise ValueError.
Proof.
  exact (conj eq_refl
           (merge_of_nothing_raises (db := ascii_db) (reader := byte_rows)
              [lit "info"] None None sample_files eq_refl eq_refl)).
Defined.

(** The theorem of C7 at three files of 10, 5 and 7 bytes, one row each
    byte. *)
Lemma merge_three_files_witness :
  exists df,
    merge_imgw_csv_files (db := ascii_db) (reader := byte_rows)
      [lit "data"] None None sample_files = Ok df
    /\ shape df = (22, 2)%nat
    /\ merge_imgw_csv_files (db := ascii_db) (reader := byte_rows)
         [lit "data"] (Some [LStr (lit "a"); LStr (lit "b")]) None
         sample_files
       = Ok (Frame [LStr (lit "a"); LStr (lit "b")] (index df) (rows df)).
Proof.
  destruct (@merge_three_files ascii_db byte_rows [lit "data"] sample_files
              [lit "k_1.csv"; lit "k_2.csv"; lit "notes.txt"; lit "k_3.csv"]
              (lit "k_1.csv") (lit "k_2.csv") (lit "k_3.csv")
              (byte_frame (repeat 49 10)) (byte_frame (repeat 50 5))
              (byte_frame (repeat 51 7))
              eq_refl eq_refl eq_refl eq_refl eq_refl
              (byte_frame_table (repeat 49 10))
              (byte_frame_table (repeat 50 5))
              (byte_frame_table (repeat 51 7)))
    as (df & H1 & H2 & _ & _ & H3).
  exists df. split; [exact H1|]. split; [exact H2 | apply H3].
Defined.

(** The theorem of C8 at a web that has no file. *)
Lemma download_url_not_found_witness :
  download_url (web := missing_web) (lit "https://host/1991_m_k.zip")
    [lit "data"; lit "1991_m_k.zip"] 128 (World sample_files [])
  = (World sample_files [MsgNoFile], Ok tt).
Proof.
  exact (download_url_not_found (web := missing_web)
           (lit "https://host/1991_m_k.zip") [lit "data"; lit "1991_m_k.zip"]
           128 (World sample_files []) eq_refl
           (fun H : 404%Z = 200%Z =>
              eq_ind 404%Z (fun z => match z with 404%Z => True | _ => False end)
                     I 200%Z H)).
Defined.

(** ** The header extractor: the footer *)

Section SeparatorFacts.
Context {db : UnicodeDb}.

Lemma in_set_space c : in_set [CSpace] c = is_space c.
Proof. unfold in_set; simpl. apply orb_false_r. Qed.

Lemma is_space_LF : is_space LF = true.
Proof. reflexivity. Qed.

(** [re.match] of the separator pattern: white space, possibly none, and
    a newline. *)
Lemma matches_separator s :
  matches separator_pattern s = true <->
  exists w t, forallb is_space w = true /\ s = w ++ LF :: t.
Proof.
  rewrite matches_iff. unfold separator_pattern. split.
  - intros (m & H). apply in_alt in H as [H|H];
      apply in_group in H as (m1 & H & _).
    + apply in_seq in H as (s1 & H1 & H2).
      apply in_plus_set in H1 as (c & w & O & F & (R1 & _)).
      apply in_lit in H2 as (R2 & _). simpl in *.
      exists (c :: w), (rest m1). split.
      * simpl. rewrite orb_false_r in O. rewrite O. simpl. rewrite <- F.
        apply forallb_eq. intros x. symmetry. apply in_set_space.
      * now rewrite R1, R2.
    + apply in_lit in H as (R & _). simpl in R.
      exists [], (rest m1). now split.
  - intros (w & t & F & ->). destruct w as [|c w].
    + eexists. apply in_alt. right. apply in_group.
      exists (MState 1 t []). split; [|reflexivity].
      apply in_lit. now repeat split.
    + simpl in F. apply andb_true_iff in F as [O F].
      eexists. apply in_alt. left. apply in_group.
      exists (MState (S (List.length w) + 1) t []). split; [|reflexivity].
      apply in_seq. exists (MState (S (List.length w)) (LF :: t) []). split.
      * apply in_plus_set. exists c, w. rewrite in_set_space, O.
        split; [reflexivity|]. split.
        -- rewrite <- F. apply forallb_eq. intros x. apply in_set_space.
        -- now repeat split.
      * apply in_lit. repeat split; simpl; lia.
Qed.

Lemma forallb_space_snoc w : 
  forallb is_space (w ++ [LF]) = forallb is_space w.
Proof. rewrite forallb_app. simpl. apply andb_true_r. Qed.

(** On a line of [readlines] the separator test is: white space only, and
    a final newline. *)
Lemma is_separator_line l :
  one_line l -> is_separator l = blank_line l.
Proof.
  intros L. unfold is_separator, blank_line.
  apply eq_true_iff_eq. rewrite matches_separator, andb_true_iff, endswith_iff.
  split.
  - intros (w & t & F & ->). rewrite (L w t eq_refl).
    rewrite forallb_space_snoc. split; [assumption | now exists w].
  - intros (F & (w & ->)). rewrite forallb_space_snoc in F.
    now exists w, [].
Qed.

End SeparatorFacts.

Lemma py_lines_cons c t :
  py_lines (c :: t) =
  if c =? LF then [c] :: py_lines t
  else match py_lines t with
       | [] => [[c]]
       | l :: ls => (c :: l) :: ls
       end.
Proof. reflexivity. Qed.

Lemma one_line_nil_LF : one_line [LF].
Proof.
  intros a b H. destruct a as [|x a]; simpl in H.
  - now injection H as <-.
  - injection H as _ H. now destruct a.
Qed.

Lemma one_line_cons c l : c <> LF -> one_line l -> one_line (c :: l).
Proof.
  intros Hc L a b H. destruct a as [|x a]; simpl in H.
  - injection H as H _. contradiction.
  - injection H as _ H. exact (L a b H).
Qed.

Lemma one_line_single c : c <> LF -> one_line [c].
Proof.
  intros Hc a b H. destruct a as [|x a]; simpl in H.
  - injection H as H _. contradiction.
  - injection H as _ H. now destruct a.
Qed.

Lemma py_lines_one_line text : Forall one_line (py_lines text).
Proof.
  induction text as [|c t IH]; [constructor|].
  rewrite py_lines_cons. destruct (N.eqb_spec c LF) as [->|Hc].
  - constructor; [apply one_line_nil_LF | assumption].
  - destruct (py_lines t) as [|l ls].
    + constructor; [now apply one_line_single | constructor].
    + inversion IH; subst. constructor; [now apply one_line_cons | assumption].
Qed.

Lemma before_first_some {A} (p : A -> bool) (l b : list A) :
  before_first p l = Some b <->
  exists x post, l = b ++ x :: post /\ p x = true
                 /\ forallb (fun y => negb (p y)) b = true.
Proof.
  revert b; induction l as [|y l IH]; intros b; simpl.
  - split; [discriminate|]. intros (x & post & H & _). now destruct b.
  - destruct (p y) eqn:E.
    + split.
      * intros [= <-]. now exists y, l.
      * intros (x & post & H & Px & F). destruct b as [|z b]; [reflexivity|].
        simpl in H, F. injection H as <- _. now rewrite E in F.
    + destruct (before_first p l) as [b'|] eqn:B; simpl.
      * split.
        -- intros [= <-]. destruct (proj1 (IH b') eq_refl) as (x & post & -> & Px & F).
           exists x, post. simpl. now rewrite E, F.
        -- intros (x & post & H & Px & F). destruct b as [|z b].
           ++ simpl in H. injection H as -> _. congruence.
           ++ simpl in H, F. injection H as <- H.
              apply andb_true_iff in F as [_ F].
              f_equal. f_equal. symmetry.
              assert (Some b' = Some b) as [= ->]; [|reflexivity].
              apply IH. now exists x, post.
      * split; [discriminate|].
        intros (x & post & H & Px & F). destruct b as [|z b].
        -- simpl in H. injection H as -> _. congruence.
        -- simpl in H, F. injection H as <- H.
           apply andb_true_iff in F as [_ F].
           assert (None = Some b) as C; [|discriminate C].
           apply IH. now exists x, post.
Qed.

Lemma before_first_none {A} (p : A -> bool) (l : list A) :
  before_first p l = None <-> forallb (fun y => negb (p y)) l = true.
Proof.
  induction l as [|y l IH]; simpl; [tauto|].
  destruct (p y); simpl; [split; discriminate|].
  rewrite <- IH. destruct (before_first p l); simpl; split; congruence.
Qed.

Lemma hits_before_first {A} (p : A -> bool) (l : list A) (k : nat) :
  match filter snd (combine (seq k (List.length l)) (List.map p l)) with
  | [] => before_first p l = None
  | hit :: _ =>
      (k <= fst hit)%nat
      /\ before_first p l = Some (firstn (fst hit - k) l)
  end.
Proof.
  revert k; induction l as [|x l IH]; intros k; simpl; [reflexivity|].
  destruct (p x); simpl.
  - split; [lia|]. now rewrite Nat.sub_diag.
  - specialize (IH (S k)).
    destruct (filter snd (combine (seq (S k) (List.length l)) (List.map p l)))
      as [|hit hits].
    + now rewrite IH.
    + destruct IH as [Hk ->]. split; [lia|]. simpl.
      replace (fst hit - k)%nat with (S (fst hit - S k)) by lia.
      reflexivity.
Qed.

Section HeaderBlockFacts.
Context {db : UnicodeDb}.

Lemma header_block_before_first text :
  header_block text =
  match before_first blank_line (tl (py_lines text)) with
  | Some blk => Ok blk
  | None => Raise IndexError
  end.
Proof.
  unfold header_block, separator_hits.
  assert (List.map is_separator (tl (py_lines text))
          = List.map blank_line (tl (py_lines text))) as ->.
  { apply map_ext_in. intros l Hl. apply is_separator_line.
    pose proof (py_lines_one_line text) as F. rewrite Forall_forall in F.
    apply F. destruct (py_lines text); [destruct Hl | now right]. }
  pose proof (hits_before_first blank_line (tl (py_lines text)) 0) as H.
  destruct (filter snd _) as [|hit hits].
  - now rewrite H.
  - destruct H as [_ ->]. simpl. now rewrite Nat.sub_0_r.
Qed.

(** C2, amended.  With the first line dropped, the header block is what
    stands before the first line of white space only that ends in a
    newline; without such a line the call raises [IndexError]. *)
Theorem header_block_spec (text : str) :
  let content := tl (py_lines text) in
  (forall blk,
     header_block text = Ok blk <->
     exists sep post,
       content = blk ++ sep :: post /\ blank_line sep = true
       /\ forallb (fun l => negb (blank_line l)) blk = true)
  /\ (header_block text = Raise IndexError <->
      forallb (fun l => negb (blank_line l)) content = true)
  /\ headers_of_text text
     = (blk <- header_block text ;; map_r header_of_line blk).
Proof.
  intros content. split; [|split; [|reflexivity]].
  - intros blk. rewrite header_block_before_first. fold content.
    rewrite <- before_first_some.
    destruct (before_first blank_line content); split; congruence.
  - rewrite header_block_before_first. fold content.
    rewrite <- before_first_none.
    destruct (before_first blank_line content); split; congruence.
Qed.

End HeaderBlockFacts.

(** C2 as stated fails.  The last line, two spaces without a newline, is
    white space only, and it is no separator: the call raises, where the
    claim cuts the lines before it and the one header is read.  With a
    newline after the spaces the header is returned. *)
Lemma header_block_needs_newline :
  header_block (db := ascii_db) (LF :: lit "DATE" ++ LF :: lit "  ")
    = Raise IndexError
  /\ headers_of_text (db := ascii_db) (LF :: lit "DATE" ++ LF :: lit "  ")
     = Raise IndexError
  /\ tl (py_lines (LF :: lit "DATE" ++ LF :: lit "  "))
     = [lit "DATE" ++ [LF]; lit "  "]
  /\ before_first (entirely_blank (db := ascii_db))
       (tl (py_lines (LF :: lit "DATE" ++ LF :: lit "  ")))
     = Some [lit "DATE" ++ [LF]]
  /\ headers_of_text (db := ascii_db)
       (LF :: lit "DATE" ++ LF :: lit "  " ++ [LF])
     = Ok [lit "DATE"].
Proof. repeat split. Qed.

(** ** The header extractor: the first alternative of the pattern *)

Section PatternAFacts.
Context {db : UnicodeDb}.

Lemma run_unit_close p l g :
  run unit_close (MState p l g) =
  match l with
  | c :: d :: t =>
      if in_set UNIT_END c && (d =? RBRACKET)
      then [MState (p + 2) t g] else []
  | _ => []
  end.
Proof.
  unfold unit_close. cbn [run flat_map]. unfold one at 2. cbn [rest].
  destruct l as [|c [|d t]]; [reflexivity| |].
  - destruct (in_set UNIT_END c); reflexivity.
  - destruct (in_set UNIT_END c); cbn [flat_map andb]; [|reflexivity].
    unfold one, advance; cbn [rest pos groups app].
    destruct (d =? RBRACKET); [|reflexivity].
    cbn [app]. do 2 f_equal. lia.
Qed.

Lemma hd_backoff_unit_close p l g :
  hd_error (flat_map (run unit_close) (backoff not_newline p l g)) =
  option_map (fun n => MState (p + n + 2) (skipn (n + 2) l) g) (last_unit l).
Proof.
  revert p; induction l as [|c t IH]; intros p.
  - reflexivity.
  - cbn [backoff last_unit].
    assert (hd_error (flat_map (run unit_close) [MState p (c :: t) g])
            = match t with
              | d :: _ =>
                  if in_set UNIT_END c && (d =? RBRACKET)
                  then Some (MState (p + 0 + 2) (skipn (0 + 2) (c :: t)) g)
                  else None
              | [] => None
              end) as Hlast.
    { cbn [flat_map]. rewrite app_nil_r, run_unit_close.
      destruct t as [|d t]; [reflexivity|].
      destruct (in_set UNIT_END c && (d =? RBRACKET)); [|reflexivity].
      simpl. now rewrite Nat.add_0_r. }
    destruct (not_newline c).
    + rewrite flat_map_app, hd_error_app, IH.
      destruct (last_unit t) as [n|]; cbn [option_map].
      * f_equal. f_equal. lia.
      * rewrite Hlast. destruct t as [|d t]; [reflexivity|].
        now destruct (in_set UNIT_END c && (d =? RBRACKET)).
    + rewrite Hlast. destruct t as [|d t]; [reflexivity|].
      now destruct (in_set UNIT_END c && (d =? RBRACKET)).
Qed.

Lemma run_seq a b s : run (Seq a b) s = flat_map (run b) (run a s).
Proof. reflexivity. Qed.

Lemma run_bol_start l g : run Bol (MState 0 l g) = [MState 0 l g].
Proof. reflexivity. Qed.

Lemma run_set items s : run (InSet items) s = one (in_set items) s.
Proof. reflexivity. Qed.

Lemma run_star_any s :
  run (Star Any) s
  = star_loop (one not_newline) (S (List.length (rest s))) s.
Proof. reflexivity. Qed.

(** What [re.match] finds for the first alternative. *)
Lemma re_match_pattern_A line :
  re_match pattern_A line =
  match line with
  | u :: body =>
      if in_set UPPER u
      then option_map (fun n => MState (n + 3) (skipn (n + 2) body) [])
                      (last_unit body)
      else None
  | [] => None
  end.
Proof.
  unfold re_match, pattern_A. cbn [cat].
  rewrite run_seq, run_bol_start. cbn [flat_map]. rewrite app_nil_r.
  rewrite run_seq, run_set. unfold one at 1; cbn [rest].
  destruct line as [|u body]; [reflexivity|].
  destruct (in_set UPPER u); [|reflexivity].
  cbn [flat_map]. rewrite app_nil_r. unfold advance; cbn [pos groups].
  rewrite run_seq, run_star_any, star_one by (simpl; lia).
  cbn [pos rest groups]. fold unit_close.
  rewrite hd_backoff_unit_close.
  destruct (last_unit body) as [n|]; [|reflexivity].
  cbn [option_map]. do 2 f_equal. lia.
Qed.

Lemma last_unit_complete l n : bracket_at l n -> last_unit l <> None.
Proof.
  revert l; induction n as [|n IH]; intros l [F (c & u & S & O)].
  - simpl in S. subst l. cbn [last_unit].
    destruct (if not_newline c then _ else None); [discriminate|].
    rewrite O, N.eqb_refl. discriminate.
  - destruct l as [|x l]; [discriminate S|].
    cbn [firstn forallb] in F. apply andb_true_iff in F as [Hx F].
    cbn [last_unit]. rewrite Hx.
    assert (last_unit l <> None) as H
        by (apply IH; split; [assumption | now exists c, u]).
    destruct (last_unit l); [discriminate | contradiction].
Qed.

Lemma last_unit_sound l n :
  last_unit l = Some n ->
  bracket_at l n /\ forall n', bracket_at l n' -> (n' <= n)%nat.
Proof.
  revert n; induction l as [|c t IH]; intros n; [discriminate|].
  cbn [last_unit].
  destruct (if not_newline c then last_unit t else None) as [k|] eqn:E.
  - intros [= <-]. destruct (not_newline c) eqn:Hc; [|discriminate].
    destruct (IH k E) as [[F X] M]. split.
    + split; [cbn [firstn forallb]; now rewrite Hc, F | exact X].
    + intros [|n'] B; [lia|]. apply le_n_S, M.
      destruct B as [F' X']. cbn [firstn forallb] in F'.
      apply andb_true_iff in F' as [_ F']. now split.
  - destruct t as [|d t]; [discriminate|].
    destruct (in_set UNIT_END c && (d =? RBRACKET)) eqn:O; [|discriminate].
    intros [= <-]. apply andb_true_iff in O as [O D].
    apply N.eqb_eq in D; subst d. split.
    + split; [reflexivity|]. now exists c, t.
    + intros [|n'] [F' X']; [lia|]. exfalso.
      cbn [firstn forallb] in F'. apply andb_true_iff in F' as [Hc F'].
      rewrite Hc in E. apply (@last_unit_complete (RBRACKET :: t) n');
        [now split | exact E].
Qed.

Lemma str_eqb_cons_nil (c : char) (l : str) : str_eqb (c :: l) [] = false.
Proof.
  unfold str_eqb. now destruct (list_eq_dec N.eq_dec (c :: l) []).
Qed.

Lemma run_pattern_A_later s : pos s <> O -> run pattern_A s = [].
Proof.
  intros H. unfold pattern_A. cbn [cat]. rewrite run_seq. cbn [run].
  destruct (Nat.eqb_spec (pos s) 0); [contradiction | reflexivity].
Qed.

Lemma run_pattern_B_later s : pos s <> O -> run pattern_B s = [].
Proof.
  intros H. unfold pattern_B. cbn [cat]. rewrite run_seq. cbn [run].
  destruct (Nat.eqb_spec (pos s) 0); [contradiction | reflexivity].
Qed.

Lemma run_header_later s : pos s <> O -> run header_pattern s = [].
Proof.
  intros H. unfold header_pattern. cbn [run].
  now rewrite run_pattern_A_later, run_pattern_B_later.
Qed.

Lemma findall_header_later subject fuel at_ left b :
  at_ <> O -> findall_loop header_pattern 2 subject fuel at_ left b = [].
Proof.
  revert at_ left b; induction fuel as [|f IH]; intros at_ left b H;
    [reflexivity|].
  cbn [findall_loop]. rewrite run_header_later by exact H. cbn [filter].
  destruct left; [reflexivity|]. now apply IH.
Qed.

Lemma in_star_any s s' :
  In s' (run (Star Any) s) <->
  exists w, forallb not_newline w = true /\ after s w s'.
Proof.
  rewrite run_star_any, star_one by lia.
  rewrite in_backoff. now rewrite mstate_eta.
Qed.

(** A match of the second alternative from the start: it is not empty and
    closes no group. *)
Lemma in_pattern_B line m :
  In m (run pattern_B (MState 0 line [])) ->
  (0 < pos m)%nat /\ groups m = [].
Proof.
  unfold pattern_B. cbn [cat]. intros H.
  apply in_seq in H as (s0 & H0 & H). apply in_bol in H0 as [_ ->].
  apply in_seq in H as (s1 & H1 & H). apply in_one in H1 as (c & _ & A1).
  apply in_seq in H as (s2 & H2 & H). apply in_star_any in H2 as (w & _ & A2).
  apply in_one in H as (d & _ & A3).
  destruct A1 as (_ & P1 & G1), A2 as (_ & P2 & G2), A3 as (_ & P3 & G3).
  simpl in *. split; [lia | congruence].
Qed.

(** [findall] of the header pattern: the groups of the one match from the
    start of the line, if there is one. *)
Lemma findall_header line :
  findall header_pattern 2 line =
  match re_match header_pattern line with
  | Some m => [[group_text line m 1; group_text line m 2]]
  | None => []
  end.
Proof.
  unfold findall, re_match.
  replace (2 * List.length line + 2)%nat
    with (S (2 * List.length line + 1)) by lia.
  generalize (2 * List.length line + 1)%nat. intros f.
  cbn [findall_loop andb negb]. rewrite filter_true.
  destruct (run header_pattern (MState 0 line [])) as [|m l] eqn:E.
  - cbn [hd_error]. destruct line; [reflexivity|].
    now apply findall_header_later.
  - cbn [hd_error List.map seq]. f_equal. apply findall_header_later.
    assert (In m (run header_pattern (MState 0 line []))) as I
        by (rewrite E; now left).
    unfold header_pattern in I. apply in_alt in I as [I|I];
      apply in_group in I as (m1 & I & ->); cbn [close_group pos].
    + unfold pattern_A in I. cbn [cat] in I.
      apply in_seq in I as (s0 & H0 & I). apply in_bol in H0 as [_ ->].
      apply in_seq in I as (s1 & H1 & I). apply in_one in H1 as (c & _ & A1).
      destruct A1 as (_ & P1 & _).
      apply in_seq in I as (s2 & H2 & I).
      apply in_star_any in H2 as (w & _ & (_ & P2 & _)).
      apply in_seq in I as (s3 & H3 & I).
      apply in_one in H3 as (d & _ & (_ & P3 & _)).
      apply in_lit in I as (_ & P4 & _). simpl in *. lia.
    + apply in_pattern_B in I. lia.
Qed.


Lemma matches_pattern_A line :
  matches pattern_A line = true <->
  exists u body n,
    line = u :: body /\ in_set UPPER u = true /\ bracket_at body n.
Proof.
  unfold matches. rewrite re_match_pattern_A. split.
  - destruct line as [|u body]; [discriminate|].
    destruct (in_set UPPER u) eqn:U; [|discriminate].
    destruct (last_unit body) as [n|] eqn:L; [|discriminate].
    intros _. exists u, body, n. repeat split; try assumption;
      apply (last_unit_sound _ L).
  - intros (u & body & n & -> & U & B). rewrite U.
    apply last_unit_complete in B.
    destruct (last_unit body); [reflexivity | contradiction].
Qed.

(** C1, amended.  The first alternative matches a line exactly when the
    line starts with a character of [UPPER] and, further on and before any
    newline, a character of [UNIT_END] (a letter, [%], the degree sign or
    [|]) is followed by a closing bracket.  The match runs from the start
    of the line to the last such bracket, wherever the line ends, and that
    whole span is the text captured for the line.  A line the alternative
    does not match gets no text from it. *)
Theorem pattern_A_spec (line : str) :
  (matches pattern_A line = true <->
   exists u body n,
     line = u :: body /\ in_set UPPER u = true /\ bracket_at body n)
  /\ (forall m, re_match pattern_A line = Some m ->
      exists u body n,
        line = u :: body /\ bracket_at body n
        /\ (forall n', bracket_at body n' -> (n' <= n)%nat)
        /\ match_end m = (n + 3)%nat
        /\ findall header_pattern 2 line = [[firstn (n + 3) line; []]]
        /\ header_of_line line = Ok (firstn (n + 3) line))
  /\ (matches pattern_A line = false ->
      forall tup, In tup (findall header_pattern 2 line) ->
                  nth 0 tup [] = []).
Proof.
  split; [apply matches_pattern_A|]. split.
  - intros m Hm. pose proof Hm as Hrun. rewrite re_match_pattern_A in Hm.
    destruct line as [|u body]; [discriminate|].
    destruct (in_set UPPER u) eqn:U; [|discriminate].
    destruct (last_unit body) as [n|] eqn:L; [|discriminate].
    injection Hm as <-. destruct (last_unit_sound _ L) as [B M].
    exists u, body, n. do 4 (split; [reflexivity || assumption|]).
    assert (findall header_pattern 2 (u :: body)
            = [[firstn (n + 3) (u :: body); []]]) as F.
    { rewrite findall_header. unfold re_match, header_pattern. cbn [run].
      unfold re_match in Hrun.
      destruct (run pattern_A (MState 0 (u :: body) [])) as [|m0 ms];
        [discriminate|].
      injection Hrun as ->. cbn [List.map app hd_error].
      unfold group_text, close_group, slice.
      cbn [groups pos List.find fst snd Nat.eqb skipn].
      now rewrite Nat.sub_0_r. }
    split; [exact F|]. unfold header_of_line. rewrite F.
    cbn [item0 bind filter]. replace (n + 3)%nat with (S (n + 2)) by lia.
    cbn [firstn]. rewrite str_eqb_cons_nil. reflexivity.
  - intros Hm tup Ht. rewrite findall_header in Ht.
    unfold matches, re_match in Hm.
    unfold re_match, header_pattern in Ht. cbn [run] in Ht.
    destruct (run pattern_A (MState 0 line [])) as [|m0 ms];
      [|discriminate]. cbn [List.map app] in Ht.
    destruct (run pattern_B (MState 0 line [])) as [|m1 ms1] eqn:E;
      [destruct Ht|].
    cbn [List.map hd_error] in Ht. destruct Ht as [<-|[]].
    assert (groups m1 = []) as G.
    { apply (@in_pattern_B line). rewrite E. now left. }
    unfold group_text, close_group. cbn [nth groups List.find fst Nat.eqb].
    now rewrite G.
Qed.

End PatternAFacts.

(** C1 as stated fails.  The line [DATE] starts with a capital and ends
    with one, and the first alternative does not match it (its text comes
    from the second); a line whose unit is followed by a width starts with
    a capital and ends with a digit, and the first alternative matches
    it. *)
Lemma pattern_A_needs_bracket :
  re_match (db := ascii_db) pattern_A (lit "DATE" ++ [LF]) = None
  /\ spec_pattern_A (db := ascii_db) (lit "DATE" ++ [LF]) = true
  /\ findall (db := ascii_db) header_pattern 2 (lit "DATE" ++ [LF])
     = [[[]; lit "DATE"]]
  /\ matches (db := ascii_db) pattern_A (lit "T [C] 5/1" ++ [LF]) = true
  /\ spec_pattern_A (db := ascii_db) (lit "T [C] 5/1" ++ [LF]) = false
  /\ header_of_line (db := ascii_db) (lit "T [C] 5/1" ++ [LF])
     = Ok (lit "T [C]").
Proof. repeat split. Qed.

(** ** The directory manager *)

Lemma str_eqb_eq (a b : str) : str_eqb a b = true <-> a = b.
Proof.
  unfold str_eqb. destruct (list_eq_dec N.eq_dec a b); split;
    congruence.
Qed.

Lemma str_eqb_refl (a : str) : str_eqb a a = true.
Proof. now apply str_eqb_eq. Qed.

Lemma str_eqb_neq (a b : str) : str_eqb a b = false <-> a <> b.
Proof.
  rewrite <- str_eqb_eq. destruct (str_eqb a b); split; congruence.
Qed.

Lemma mem_name_in n ns : mem_name n ns = true <-> In n ns.
Proof.
  unfold mem_name. rewrite existsb_exists. split.
  - intros (x & Hx & E). apply str_eqb_eq in E. now subst.
  - intros H. exists n. split; [assumption | apply str_eqb_refl].
Qed.

(** *** Lookups and updates *)

Lemma assoc_cons n c cs :
  assoc n (c :: cs) = if str_eqb (fst c) n then Some (snd c) else assoc n cs.
Proof. unfold assoc. simpl. now destruct (str_eqb (fst c) n). Qed.

Lemma assoc_in n e cs :
  NoDup (List.map fst cs) -> In (n, e) cs -> assoc n cs = Some e.
Proof.
  induction cs as [|c cs IH]; intros N H; [destruct H|].
  rewrite assoc_cons. simpl in N. inversion N as [|? ? Hn N']; subst.
  destruct H as [->|H]; simpl.
  - now rewrite str_eqb_refl.
  - destruct (str_eqb (fst c) n) eqn:E; [|now apply IH].
    apply str_eqb_eq in E. exfalso. apply Hn. rewrite E.
    apply in_map_iff. now exists (n, e).
Qed.

Lemma assoc_some_in n e cs : assoc n cs = Some e -> In (n, e) cs.
Proof.
  induction cs as [|c cs IH]; [discriminate|]. rewrite assoc_cons.
  destruct (str_eqb (fst c) n) eqn:E.
  - intros [= <-]. apply str_eqb_eq in E. left. rewrite <- E. now destruct c.
  - intros H. right. now apply IH.
Qed.

Lemma lookup_app p q e :
  lookup (p ++ q) e =
  match lookup p e with Some x => lookup q x | None => None end.
Proof.
  revert e; induction p as [|n p IH]; intros e; simpl; [reflexivity|].
  destruct e as [d|cs]; [reflexivity|].
  destruct (assoc n cs); [apply IH | reflexivity].
Qed.

Lemma update_app p q f e : update (p ++ q) f e = update p (update q f) e.
Proof.
  revert e; induction p as [|n p IH]; intros e; simpl; [reflexivity|].
  destruct e as [d|cs]; [reflexivity|]. f_equal.
  apply map_ext. intros c. now rewrite IH.
Qed.

Lemma update_update p f g e :
  update p f (update p g e) = update p (fun x => f (g x)) e.
Proof.
  revert e; induction p as [|n p IH]; intros e; simpl; [reflexivity|].
  destruct e as [d|cs]; [reflexivity|]. f_equal.
  rewrite map_map. apply map_ext. intros c.
  destruct (str_eqb (fst c) n) eqn:E; simpl; rewrite E; [|reflexivity].
  now rewrite IH.
Qed.

Lemma assoc_map_child n g cs :
  assoc n (List.map (fun c => if str_eqb (fst c) n
                              then (fst c, g (snd c)) else c) cs)
  = option_map g (assoc n cs).
Proof.
  induction cs as [|c cs IH]; [reflexivity|].
  cbn [List.map]. rewrite !assoc_cons.
  destruct (str_eqb (fst c) n) eqn:E; simpl; rewrite E; [reflexivity|].
  exact IH.
Qed.

Lemma lookup_update p f e x :
  lookup p e = Some x -> lookup p (update p f e) = Some (f x).
Proof.
  revert e; induction p as [|n p IH]; intros e; simpl.
  - now intros [= ->].
  - destruct e as [d|cs]; [discriminate|].
    rewrite assoc_map_child. destruct (assoc n cs) as [c|]; [|discriminate].
    simpl. apply IH.
Qed.

Lemma assoc_map_other n m g cs :
  m <> n ->
  assoc m (List.map (fun c => if str_eqb (fst c) n
                              then (fst c, g (snd c)) else c) cs)
  = assoc m cs.
Proof.
  intros H. induction cs as [|c cs IH]; [reflexivity|].
  cbn [List.map]. rewrite !assoc_cons.
  destruct (str_eqb (fst c) n) eqn:E; cbn [fst snd]; [|now rewrite IH].
  apply str_eqb_eq in E.
  assert (str_eqb (fst c) m = false) as -> by (apply str_eqb_neq; congruence).
  exact IH.
Qed.

(** An update leaves the paths beside it as they are. *)
Lemma lookup_update_other p q f e :
  diverge p q = true -> lookup q (update p f e) = lookup q e.
Proof.
  revert q e; induction p as [|a p IH]; intros [|b q] e D;
    try discriminate D.
  cbn [diverge] in D. destruct e as [d|cs]; [reflexivity|].
  cbn [update lookup]. destruct (str_eqb a b) eqn:E.
  - apply str_eqb_eq in E. subst b. rewrite assoc_map_child.
    destruct (assoc a cs) as [c|]; [|reflexivity]. cbn [option_map].
    now apply IH.
  - apply str_eqb_neq in E. rewrite assoc_map_other by congruence.
    reflexivity.
Qed.

Lemma split_path_snoc p n : split_path (p ++ [n]) = Some (p, n).
Proof.
  unfold split_path. rewrite rev_app_distr. simpl.
  now rewrite rev_involutive.
Qed.

Lemma put_put p x y e : put p x (put p y e) = put p x e.
Proof. unfold put. now rewrite update_update. Qed.

Lemma update_put p f x e : update p f (put p x e) = put p (f x) e.
Proof. unfold put. now rewrite update_update. Qed.

Lemma lookup_put p x e y :
  lookup p e = Some y -> lookup p (put p x e) = Some x.
Proof. intros H. unfold put. now rewrite lookup_update with (x := y). Qed.

Lemma lookup_child_put p n cs e y :
  lookup p e = Some y ->
  lookup (p ++ [n]) (put p (Dir cs) e) = assoc n cs.
Proof.
  intros H. rewrite lookup_app, lookup_put with (y := y) by exact H. simpl.
  now destruct (assoc n cs).
Qed.

(** *** Well-formed trees *)

Lemma wf_dir cs :
  wf (Dir cs) <->
  NoDup (List.map fst cs) /\ forall c, In c cs -> wf (snd c).
Proof.
  cbn [wf]. split; intros [N H]; (split; [exact N|]).
  - induction cs as [|c cs IH]; [intros ? []|].
    simpl in H. destruct H as [Hc H]. inversion N; subst.
    intros x [<-|Hx]; [assumption | now apply IH].
  - induction cs as [|c cs IH]; [exact I|]. simpl. inversion N; subst. split.
    + apply H. now left.
    + apply IH; [assumption|]. intros x Hx. apply H. now right.
Qed.

Lemma height_child c cs :
  In c cs -> (height (snd c) < height (Dir cs))%nat.
Proof.
  cbn [height]. induction cs as [|x cs IH]; [intros []|].
  intros [->|H]; simpl; [lia|]. specialize (IH H). lia.
Qed.

Lemma wf_lookup p e x : wf e -> lookup p e = Some x -> wf x.
Proof.
  revert e; induction p as [|n p IH]; intros e W; simpl.
  - now intros [= <-].
  - destruct e as [d|cs]; [discriminate|].
    destruct (assoc n cs) as [c|] eqn:A; [|discriminate].
    apply IH. apply wf_dir in W as [_ W].
    apply assoc_some_in in A. exact (W _ A).
Qed.

Lemma height_lookup p e x :
  lookup p e = Some x -> (height x <= height e)%nat.
Proof.
  revert e; induction p as [|n p IH]; intros e; simpl.
  - intros [= <-]. lia.
  - destruct e as [d|cs]; [discriminate|].
    destruct (assoc n cs) as [c|] eqn:A; [|discriminate].
    intros H. apply IH in H. apply assoc_some_in in A.
    apply height_child in A. simpl in A. simpl. lia.
Qed.

Lemma put_same p e x : wf e -> lookup p e = Some x -> put p x e = e.
Proof.
  unfold put. revert e; induction p as [|n p IH]; intros e W; simpl.
  - now intros [= ->].
  - destruct e as [d|cs]; [discriminate|].
    destruct (assoc n cs) as [c|] eqn:A; [|discriminate].
    intros H. f_equal. apply wf_dir in W as [N W].
    rewrite <- (map_id cs) at 2. apply map_ext_in. intros y Hy.
    destruct (str_eqb (fst y) n) eqn:E; [|reflexivity].
    apply str_eqb_eq in E.
    assert (assoc n cs = Some (snd y)) as A'
        by (apply assoc_in; [assumption | rewrite <- E; now destruct y]).
    rewrite A in A'. injection A' as ->.
    rewrite IH; [now destruct y | now apply W | assumption].
Qed.

(** *** The calls of the loop, on a child of a directory *)

Section UnderRoot.
Variables (root : path) (fs0 r0 : entry).
Hypothesis root_there : lookup root fs0 = Some r0.

Lemma remove_child n cs d :
  assoc n cs = Some (File d) ->
  remove (root ++ [n]) (put root (Dir cs) fs0)
  = Ok (put root (Dir (without n cs)) fs0).
Proof.
  intros A. unfold remove.
  rewrite lookup_child_put with (y := r0) by exact root_there.
  rewrite A, split_path_snoc. now rewrite update_put.
Qed.

Lemma rmdir_child n cs :
  assoc n cs = Some (Dir []) ->
  rmdir (root ++ [n]) (put root (Dir cs) fs0)
  = Ok (put root (Dir (without n cs)) fs0).
Proof.
  intros A. unfold rmdir.
  rewrite lookup_child_put with (y := r0) by exact root_there.
  rewrite A, split_path_snoc. now rewrite update_put.
Qed.

Lemma assoc_without_ne n m cs :
  m <> n -> assoc m (without n cs) = assoc m cs.
Proof.
  intros H. induction cs as [|c cs IH]; [reflexivity|].
  unfold without in *. cbn [filter]. rewrite assoc_cons.
  destruct (str_eqb (fst c) n) eqn:E; cbn [negb].
  - apply str_eqb_eq in E.
    assert (str_eqb (fst c) m = false) as -> by (apply str_eqb_neq; congruence).
    exact IH.
  - rewrite assoc_cons. now rewrite IH.
Qed.

Lemma without_filter n ns cs :
  filter (fun c => negb (mem_name (fst c) ns)) (without n cs)
  = filter (fun c => negb (mem_name (fst c) (n :: ns))) cs.
Proof.
  unfold without. induction cs as [|c cs IH]; [reflexivity|].
  cbn [filter mem_name existsb].
  destruct (str_eqb (fst c) n) eqn:E; cbn [negb orb].
  - exact IH.
  - cbn [filter]. fold (mem_name (fst c) ns).
    destruct (mem_name (fst c) ns); cbn [negb]; now rewrite IH.
Qed.

(** A loop of calls that each drop one child drops them all. *)
Lemma for_each_drop (good : entry -> Prop)
  (op : path -> entry -> result entry) :
  (forall n cs e, assoc n cs = Some e -> good e ->
     op (root ++ [n]) (put root (Dir cs) fs0)
     = Ok (put root (Dir (without n cs)) fs0)) ->
  forall names cs out,
    NoDup names ->
    (forall n, In n names -> exists e, assoc n cs = Some e /\ good e) ->
    for_each names (fun x => fs_call (op (root ++ [x])))
             (World (put root (Dir cs) fs0) out)
    = (World (put root
                (Dir (filter (fun c => negb (mem_name (fst c) names)) cs))
                fs0) out, Ok tt).
Proof.
  intros Hop names. induction names as [|n names IH]; intros cs out N G.
  - cbn [for_each ret mem_name existsb negb]. now rewrite filter_true.
  - cbn [for_each]. unfold andthen at 1, fs_call at 1. cbn [fs stdout].
    destruct (G n (or_introl eq_refl)) as (e & A & Ge).
    rewrite (Hop n cs e A Ge). inversion N as [|? ? Hn N']; subst.
    rewrite IH; [now rewrite without_filter | assumption |].
    intros m Hm. rewrite assoc_without_ne by (intros ->; contradiction).
    apply G. now right.
Qed.

End UnderRoot.

(** *** The children of a directory *)

Lemma set_child_names n e cs : List.map fst (set_child n e cs) = List.map fst cs.
Proof.
  unfold set_child. rewrite map_map. apply map_ext. intros c.
  now destruct (str_eqb (fst c) n).
Qed.

Lemma set_child_same n e cs :
  NoDup (List.map fst cs) -> assoc n cs = Some e -> set_child n e cs = cs.
Proof.
  intros N A. unfold set_child. rewrite <- (map_id cs) at 2.
  apply map_ext_in. intros c Hc.
  destruct (str_eqb (fst c) n) eqn:E; [|reflexivity].
  apply str_eqb_eq in E.
  assert (assoc n cs = Some (snd c)) as A'
      by (apply assoc_in; [assumption | rewrite <- E; now destruct c]).
  rewrite A in A'. injection A' as ->. now destruct c.
Qed.

Lemma assoc_set_child_ne n m e cs :
  m <> n -> assoc m (set_child n e cs) = assoc m cs.
Proof.
  intros H. induction cs as [|c cs IH]; [reflexivity|].
  unfold set_child in *. cbn [List.map]. rewrite !assoc_cons.
  destruct (str_eqb (fst c) n) eqn:E; cbn [fst snd]; [|now rewrite IH].
  apply str_eqb_eq in E.
  assert (str_eqb (fst c) m = false) as -> by (apply str_eqb_neq; congruence).
  exact IH.
Qed.

Lemma emptied_set_child n ns cs :
  emptied ns (set_child n (Dir []) cs) = emptied (n :: ns) cs.
Proof.
  unfold emptied, set_child. rewrite map_map. apply map_ext. intros c.
  cbn [mem_name existsb]. fold (mem_name (fst c) ns).
  destruct (str_eqb (fst c) n); cbn [fst orb]; [|reflexivity].
  now destruct (mem_name (fst c) ns).
Qed.

Lemma emptied_nil cs : emptied [] cs = cs.
Proof. unfold emptied. cbn [mem_name existsb]. apply map_id. Qed.

Lemma emptied_names ns cs : List.map fst (emptied ns cs) = List.map fst cs.
Proof.
  unfold emptied. rewrite map_map. apply map_ext. intros c.
  now destruct (mem_name (fst c) ns).
Qed.

Lemma assoc_emptied n ns cs :
  assoc n (emptied ns cs)
  = option_map (fun e => if mem_name n ns then Dir [] else e) (assoc n cs).
Proof.
  induction cs as [|c cs IH]; [reflexivity|].
  unfold emptied in *. cbn [List.map]. rewrite !assoc_cons.
  destruct (mem_name (fst c) ns) eqn:M; cbn [fst snd];
    destruct (str_eqb (fst c) n) eqn:E; try exact IH; cbn [option_map].
  - apply str_eqb_eq in E. subst n. now rewrite M.
  - apply str_eqb_eq in E. subst n. now rewrite M.
Qed.

Lemma assoc_filter_names n ns cs :
  assoc n (filter (fun c => negb (mem_name (fst c) ns)) cs)
  = if mem_name n ns then None else assoc n cs.
Proof.
  induction cs as [|c cs IH]; [now destruct (mem_name n ns)|].
  cbn [filter]. destruct (mem_name (fst c) ns) eqn:M; cbn [negb].
  - rewrite IH, assoc_cons. destruct (str_eqb (fst c) n) eqn:E; [|reflexivity].
    apply str_eqb_eq in E. subst n. now rewrite M.
  - rewrite !assoc_cons, IH. destruct (str_eqb (fst c) n) eqn:E; [|reflexivity].
    apply str_eqb_eq in E. subst n. now rewrite M.
Qed.

Lemma NoDup_map_filter {A B} (f : A -> B) (p : A -> bool) (l : list A) :
  NoDup (List.map f l) -> NoDup (List.map f (filter p l)).
Proof.
  induction l as [|x l IH]; intros N; [constructor|].
  simpl in N. inversion N as [|? ? Hx N']; subst. cbn [filter].
  destruct (p x); [|now apply IH]. cbn [List.map]. constructor; [|now apply IH].
  intros H. apply Hx. apply in_map_iff in H as (y & E & Hy).
  apply filter_In in Hy as [Hy _]. apply in_map_iff. now exists y.
Qed.

Lemma in_subdirs n cs :
  NoDup (List.map fst cs) ->
  In n (subdirs cs) <-> exists e, assoc n cs = Some e /\ is_dir e = true.
Proof.
  intros N. unfold subdirs. rewrite in_map_iff. split.
  - intros (c & <- & Hc). apply filter_In in Hc as [Hc D].
    exists (snd c). split; [|assumption].
    apply assoc_in; [assumption | now destruct c].
  - intros (e & A & D). apply assoc_some_in in A. exists (n, e).
    split; [reflexivity|]. apply filter_In. now split.
Qed.

Lemma in_nondirs n cs :
  NoDup (List.map fst cs) ->
  In n (nondirs cs) <-> exists e, assoc n cs = Some e /\ is_dir e = false.
Proof.
  intros N. unfold nondirs. rewrite in_map_iff. split.
  - intros (c & <- & Hc). apply filter_In in Hc as [Hc D].
    exists (snd c). split; [|now apply negb_true_iff].
    apply assoc_in; [assumption | now destruct c].
  - intros (e & A & D). apply assoc_some_in in A. exists (n, e).
    split; [reflexivity|]. apply filter_In. split; [assumption|].
    now apply negb_true_iff.
Qed.

Lemma filter_none {A} (p : A -> bool) (l : list A) :
  (forall x, In x l -> p x = false) -> filter p l = [].
Proof.
  induction l as [|x l IH]; intros H; [reflexivity|]. cbn [filter].
  rewrite (H x (or_introl eq_refl)). apply IH. intros y Hy. apply H. now right.
Qed.

(** What is left of the children once the subdirectories are emptied, the
    files removed and the subdirectories removed: nothing. *)
Lemma children_all_gone cs :
  NoDup (List.map fst cs) ->
  filter (fun c => negb (mem_name (fst c) (subdirs cs)))
    (filter (fun c => negb (mem_name (fst c) (nondirs cs)))
       (emptied (subdirs cs) cs)) = [].
Proof.
  intros N. apply filter_none. intros x Hx.
  apply filter_In in Hx as [Hx F]. apply negb_true_iff in F.
  apply negb_false_iff. unfold emptied in Hx.
  apply in_map_iff in Hx as (c & E & Hc).
  assert (fst x = fst c) as Ex
      by (rewrite <- E; now destruct (mem_name (fst c) (subdirs cs))).
  rewrite Ex in *. clear E Ex x.
  assert (assoc (fst c) cs = Some (snd c)) as A
      by (apply assoc_in; [assumption | now destruct c]).
  apply mem_name_in, in_subdirs; [assumption|].
  exists (snd c). split; [assumption|].
  destruct (is_dir (snd c)) eqn:D; [reflexivity|]. exfalso.
  assert (In (fst c) (nondirs cs)) as I
      by (apply in_nondirs; [assumption | now exists (snd c)]).
  apply mem_name_in in I. congruence.
Qed.

(** *** The walk *)

Lemma put_child_path root n e cs fs0 :
  put (root ++ [n]) e (put root (Dir cs) fs0)
  = put root (Dir (set_child n e cs)) fs0.
Proof.
  unfold put at 1. rewrite update_app. unfold put at 1.
  rewrite update_update. reflexivity.
Qed.

(** The loop of [clean_directories] empties a directory. *)
Lemma clean_walk_empties fuel :
  forall root fs0 r0 cs out,
    lookup root fs0 = Some r0 ->
    wf (Dir cs) ->
    (height (Dir cs) <= fuel)%nat ->
    clean_walk fuel root (World (put root (Dir cs) fs0) out)
    = (World (put root (Dir []) fs0) out, Ok tt).
Proof.
  induction fuel as [|f IH]; intros root fs0 r0 cs out R W H.
  - cbn [height] in H. lia.
  - cbn [clean_walk fs]. rewrite lookup_put with (y := r0) by exact R.
    apply wf_dir in W as [N W].
    (* the subdirectories are walked *)
    assert (forall names cs' out',
              NoDup names -> NoDup (List.map fst cs') ->
              (forall n, In n names ->
                 exists sub, assoc n cs' = Some (Dir sub) /\ wf (Dir sub)
                             /\ (height (Dir sub) <= f)%nat) ->
              for_each names (fun d => clean_walk f (root ++ [d]))
                       (World (put root (Dir cs') fs0) out')
              = (World (put root (Dir (emptied names cs')) fs0) out', Ok tt))
      as Walk.
    { induction names as [|n names IHn]; intros cs' out' Nn Nc G.
      - cbn [for_each ret]. now rewrite emptied_nil.
      - cbn [for_each]. unfold andthen at 1.
        destruct (G n (or_introl eq_refl)) as (sub & A & Ws & Hs).
        rewrite <- (@set_child_same n (Dir sub) cs' Nc A) at 1.
        rewrite <- put_child_path.
        rewrite IH with (r0 := Dir sub); try assumption;
          [|rewrite lookup_child_put with (y := r0); assumption].
        rewrite put_child_path. inversion Nn as [|? ? Hn Nn']; subst.
        rewrite IHn; [now rewrite emptied_set_child | assumption
                     | now rewrite set_child_names |].
        intros m Hm. rewrite assoc_set_child_ne by (intros ->; contradiction).
        apply G. now right. }
    unfold andthen at 1. rewrite Walk; cycle 1.
    { unfold subdirs. now apply NoDup_map_filter. }
    { exact N. }
    { intros n Hn. apply in_subdirs in Hn as (e & A & D); [|exact N].
      destruct e as [d|sub]; [discriminate|]. exists sub.
      split; [assumption|]. apply assoc_some_in in A. split.
      - exact (W _ A).
      - apply height_child in A. cbn [snd] in A. lia. }
    (* the files are removed *)
    unfold andthen at 1.
    rewrite (@for_each_drop root fs0 (fun e => is_dir e = false) remove);
      cycle 1.
    { intros n cs' e A D. destruct e as [d|sub]; [|discriminate].
      now apply remove_child with (r0 := r0) (d := d). }
    { unfold nondirs. now apply NoDup_map_filter. }
    { intros n Hn. pose proof Hn as Hn'.
      apply in_nondirs in Hn as (e & A & D); [|exact N].
      rewrite assoc_emptied, A. cbn [option_map].
      destruct (mem_name n (subdirs cs)) eqn:M.
      - apply mem_name_in, in_subdirs in M as (e' & A' & D'); [|exact N].
        congruence.
      - now exists e. }
    (* the subdirectories are removed *)
    rewrite (@for_each_drop root fs0 (fun e => e = Dir []) rmdir);
      cycle 1.
    { intros n cs' e A ->. now apply rmdir_child with (r0 := r0). }
    { unfold subdirs. now apply NoDup_map_filter. }
    { intros n Hn. pose proof Hn as Hn'.
      apply in_subdirs in Hn as (e & A & D); [|exact N].
      rewrite assoc_filter_names, assoc_emptied, A. cbn [option_map].
      apply mem_name_in in Hn'. rewrite Hn'.
      destruct (mem_name n (nondirs cs)) eqn:M.
      - apply mem_name_in, in_nondirs in M as (e' & A' & D'); [|exact N].
        congruence.
      - now exists (Dir []). }
    now rewrite children_all_gone.
Qed.

(** C9.  On a tree where a name is once in its directory:
    [clean_directories] of a directory, whatever files and directories it
    holds, leaves it there and empty, leaves what stands beside it as it
    was, and raises nothing; of a path that is not there it leaves the
    files as they are and raises nothing. *)
Theorem clean_directories_spec (main_directory : path) (w : world) :
  wf (fs w) ->
  (forall cs,
     lookup main_directory (fs w) = Some (Dir cs) ->
     clean_directories main_directory w
     = (World (put main_directory (Dir []) (fs w))
              (stdout w ++ [MsgRemoving main_directory]), Ok tt)
     /\ lookup main_directory (put main_directory (Dir []) (fs w))
        = Some (Dir [])
     /\ forall q, diverge main_directory q = true ->
           lookup q (put main_directory (Dir []) (fs w)) = lookup q (fs w))
  /\ (lookup main_directory (fs w) = None ->
      clean_directories main_directory w
      = (World (fs w) (stdout w ++ [MsgNoPath main_directory]), Ok tt)).
Proof.
  intros W. split.
  - intros cs L.
    split; [|split; [now apply lookup_put with (y := Dir cs)
                    |intros q D; now apply lookup_update_other]].
    unfold clean_directories, exists_. rewrite L.
    unfold andthen, print. cbn [fs stdout].
    pose proof (@put_same main_directory (fs w) (Dir cs) W L) as E.
    generalize (S (height (fs w))) (Nat.le_succ_diag_r (height (fs w))).
    intros fuel Hf. rewrite <- E at 1.
    apply clean_walk_empties with (r0 := Dir cs).
    + exact L.
    + exact (@wf_lookup main_directory (fs w) (Dir cs) W L).
    + apply height_lookup in L. lia.
  - intros L. unfold clean_directories, exists_. now rewrite L.
Qed.

(** The theorem of C9 at a tree with nested files and directories. *)
Lemma clean_directories_witness :
  wf nested_files
  /\ clean_directories [lit "data"] (World nested_files [])
     = (World (Dir [(lit "data", Dir []); (lit "info", Dir [(lit "k.txt", File [])])])
              [MsgRemoving [lit "data"]], Ok tt)
  /\ clean_directories [lit "tmp"] (World nested_files [])
     = (World nested_files [MsgNoPath [lit "tmp"]], Ok tt).
Proof.
  assert (wf nested_files) as W.
  { cbn. repeat split; repeat constructor; cbn; intuition discriminate. }
  split; [exact W|].
  destruct (clean_directories_spec [lit "data"] (World nested_files []) W)
    as [H1 _].
  destruct (clean_directories_spec [lit "tmp"] (World nested_files []) W)
    as [_ H2].
  split.
  - exact (proj1 (H1 _ eq_refl)).
  - exact (H2 eq_refl).
Defined.

(** ** An info file, end to end *)

(** An example: a description file with the header block [TEMP, degree sign, C]
    and [DATE], an empty line and a footer gives these two headers, in this
    order, in every database. *)
Lemma headers_of_text_example (db : UnicodeDb) :
  headers_of_text
    (LF :: lit "TEMP " ++ 176 :: lit "C" ++ LF :: lit "DATE" ++ LF
        :: LF :: lit "Status 8 brak pomiaru" ++ [LF])
  = Ok [lit "TEMP " ++ 176 :: lit "C"; lit "DATE"].
Proof. reflexivity. Qed.

(** * Further properties of the code *)

(** ** Loops *)

Lemma for_each_app {A} (l1 l2 : list A) (body : A -> M unit) (w : world) :
  for_each (l1 ++ l2) body w =
  match for_each l1 body w with
  | (w1, Ok _) => for_each l2 body w1
  | (w1, Raise e) => (w1, Raise e)
  end.
Proof.
  revert w; induction l1 as [|x l1 IH]; intros w; [reflexivity|].
  cbn [app for_each]. unfold andthen.
  destruct (body x w) as [w1 [[]|e]]; [apply IH | reflexivity].
Qed.

(** A loop whose body returns at every step returns. *)
Lemma for_each_returns {A} (l : list A) (body : A -> M unit) :
  (forall x w, In x l -> snd (body x w) = Ok tt) ->
  forall w, snd (for_each l body w) = Ok tt.
Proof.
  induction l as [|x l IH]; intros H w; [reflexivity|].
  cbn [for_each]. unfold andthen.
  pose proof (H x w (or_introl eq_refl)) as Hx.
  destruct (body x w) as [w1 [[]|e]]; [|discriminate Hx].
  apply IH. intros y w' Hy. apply H. now right.
Qed.

(** ** The directory manager: creating *)


Section CreateUnderRoot.
Variables (root : path) (fs0 r0 : entry).
Hypothesis root_there : lookup root fs0 = Some r0.




End CreateUnderRoot.





(** Texts that are no single component, under [data] of the nested tree:
    a path into a directory that is there, into one that is not, into a
    file, and the texts that name the directory itself. *)
Lemma mkdir_joined_texts :
  (exists files',
     mkdir_joined [lit "data"] (lit "zips/new") nested_files = Ok files'
     /\ lookup [lit "data"; lit "zips"; lit "new"] files' = Some (Dir []))
  /\ mkdir_joined [lit "data"] (lit "none/new") nested_files
     = Raise FileNotFoundError
  /\ mkdir_joined [lit "data"] (lit "a.csv/new") nested_files
     = Raise NotADirectoryError
  /\ mkdir_joined [lit "data"] [] nested_files = Raise FileExistsError
  /\ mkdir_joined [lit "data"] (lit ".") nested_files = Raise FileExistsError
  /\ mkdir_joined [lit "data"] (lit "..") nested_files
     = Raise FileExistsError
  /\ mkdir_joined [lit "data"] [120; 0] nested_files = Raise ValueError
  /\ mkdir_joined [lit "data"] [55296; 0] nested_files
     = Raise UnicodeEncodeError.
Proof. split; [eexists; split; reflexivity | repeat split]. Qed.








(** ** The directory manager: cleaning *)

Lemma clean_directories_dir (main_directory : path) (w : world) cs :
  wf (fs w) ->
  lookup main_directory (fs w) = Some (Dir cs) ->
  clean_directories main_directory w
  = (World (put main_directory (Dir []) (fs w))
           (stdout w ++ [MsgRemoving main_directory]), Ok tt).
Proof.
  intros W L. unfold clean_directories, exists_. rewrite L.
  unfold andthen, print. cbn [fs stdout].
  pose proof (@put_same main_directory (fs w) (Dir cs) W L) as E.
  generalize (S (height (fs w))) (Nat.le_succ_diag_r (height (fs w))).
  intros fuel Hf. rewrite <- E at 1.
  apply clean_walk_empties with (r0 := Dir cs).
  - exact L.
  - exact (@wf_lookup main_directory (fs w) (Dir cs) W L).
  - apply height_lookup in L. lia.
Qed.

(** X3.  On a tree where a name is once in its directory,
    [clean_directories] never raises: not for a directory, not for a file
    (nothing is removed then), not for a path that is not there. *)
Theorem clean_directories_never_raises (main_directory : path) (w : world) :
  wf (fs w) ->
  snd (clean_directories main_directory w) = Ok tt
  /\ (forall d, lookup main_directory (fs w) = Some (File d) ->
        fs (fst (clean_directories main_directory w)) = fs w).
Proof.
  intros W. destruct (lookup main_directory (fs w)) as [[d|cs]|] eqn:L.
  - assert (clean_directories main_directory w
            = (World (fs w) (stdout w ++ [MsgRemoving main_directory]), Ok tt))
      as E.
    { unfold clean_directories, exists_. rewrite L.
      unfold andthen, print. cbn [clean_walk fs]. now rewrite L. }
    rewrite E. split; [reflexivity | now intros].
  - rewrite clean_directories_dir with (cs := cs) by assumption.
    split; [reflexivity | discriminate].
  - unfold clean_directories, exists_. rewrite L.
    split; [reflexivity | discriminate].
Qed.


Lemma wf_nested_files : wf nested_files.
Proof. cbn. repeat split; repeat constructor; cbn; intuition discriminate. Qed.



(** The theorem of X3 at a file. *)
Lemma clean_directories_never_raises_witness :
  snd (clean_directories [lit "data"; lit "a.csv"] (World nested_files []))
  = Ok tt.
Proof.
  exact (proj1 (@clean_directories_never_raises [lit "data"; lit "a.csv"]
                  (World nested_files []) wf_nested_files)).
Defined.


(** ** The fetcher: one file *)










Section FetcherMore.
Context {web : Web}.

Lemma try_except_print_returns (m : M unit) msg w :
  snd (try_except m (print msg) w) = Ok tt.
Proof.
  unfold try_except. destruct (m w) as [w' [[]|e]]; reflexivity.
Qed.

Lemma download_url_returns url save_path chunk_size r w :
  requests_get url = Ok r ->
  snd (download_url url save_path chunk_size w) = Ok tt.
Proof.
  intros G. unfold download_url. rewrite G.
  destruct (status_code r =? 200)%Z; [apply try_except_print_returns|].
  reflexivity.
Qed.



(** X5.  Once [requests.get] has answered, [download_url] raises nothing,
    whatever the status, the files and the stream. *)
Theorem download_url_never_raises (url : str) (save_path : path)
  (chunk_size : nat) (r : response) (w : world) :
  requests_get url = Ok r ->
  snd (download_url url save_path chunk_size w) = Ok tt.
Proof. apply download_url_returns. Qed.



(** X8.  A response with status 200 and no directory to save in: nothing
    is written, one line is printed and nothing is raised. *)
Theorem download_url_without_directory (url : str) (parent : path)
  (n : str) (chunk_size : nat) (r : response) (w : world) :
  requests_get url = Ok r ->
  status_code r = 200%Z ->
  lookup parent (fs w) = None ->
  download_url url (parent ++ [n]) chunk_size w
  = (World (fs w) (stdout w ++ [MsgUnable]), Ok tt).
Proof.
  intros G S L. unfold download_url. rewrite G, S. cbn [Z.eqb Pos.eqb].
  unfold try_except, andthen, fs_call, open_wb.
  rewrite lookup_app, L, split_path_snoc, L. reflexivity.
Qed.

(** ** The fetcher: batches *)

(** X9.  [download_imgw_info_files]: when every request is answered the
    batch raises nothing, whatever the statuses; when a request raises,
    the batch raises with it, the names before it are done and the names
    after it are not asked for. *)
Theorem download_imgw_info_files_spec (url : str) (download_dir : path)
  (w : world) :
  (forall file_names,
     (forall fname, In fname file_names ->
        exists r, requests_get (url ++ [SLASH] ++ fname) = Ok r) ->
     snd (download_imgw_info_files url file_names download_dir w) = Ok tt)
  /\ (forall pre fname post e,
        (forall f, In f pre ->
           exists r, requests_get (url ++ [SLASH] ++ f) = Ok r) ->
        requests_get (url ++ [SLASH] ++ fname) = Raise e ->
        download_imgw_info_files url (pre ++ fname :: post) download_dir w
        = (fst (download_imgw_info_files url pre download_dir w), Raise e)).
Proof.
  assert (forall names w0,
            (forall f, In f names ->
               exists r, requests_get (url ++ [SLASH] ++ f) = Ok r) ->
            snd (download_imgw_info_files url names download_dir w0) = Ok tt)
    as R.
  { intros names w0 H. unfold download_imgw_info_files.
    apply for_each_returns. intros x w1 Hx. destruct (H x Hx) as [r G].
    now apply download_url_returns with (r := r). }
  split; [intros names; apply R|].
  intros pre fname post e H G. specialize (R pre w H).
  destruct (download_imgw_info_files url pre download_dir w)
    as [w1 r1] eqn:E.
  cbn [snd fst] in *. subst r1.
  unfold download_imgw_info_files in *. rewrite for_each_app, E.
  cbn [for_each]. unfold andthen, download_url. now rewrite G.
Qed.

(** X10.  [download_all_zip_files]: the same, for the archive of each date
    directory, asked for at the URL made of the base, the directory, a
    slash and the directory, the pattern and the extension. *)
Theorem download_all_zip_files_spec (url file_pattern ext : str)
  (download_dir : path) (w : world) :
  let address dd := url ++ dd ++ [SLASH] ++ dd ++ file_pattern ++ ext in
  (forall date_directories,
     (forall dd, In dd date_directories ->
        exists r, requests_get (address dd) = Ok r) ->
     snd (download_all_zip_files url date_directories file_pattern
            download_dir ext w) = Ok tt)
  /\ (forall pre dd post e,
        (forall d, In d pre -> exists r, requests_get (address d) = Ok r) ->
        requests_get (address dd) = Raise e ->
        download_all_zip_files url (pre ++ dd :: post) file_pattern
          download_dir ext w
        = (fst (download_all_zip_files url pre file_pattern download_dir
                  ext w), Raise e)).
Proof.
  intros address.
  assert (forall names w0,
            (forall d, In d names ->
               exists r, requests_get (address d) = Ok r) ->
            snd (download_all_zip_files url names file_pattern download_dir
                   ext w0) = Ok tt)
    as R.
  { intros names w0 H. unfold download_all_zip_files.
    apply for_each_returns. intros x w1 Hx. destruct (H x Hx) as [r G].
    now apply download_url_returns with (r := r). }
  split; [intros names; apply R|].
  intros pre dd post e H G. specialize (R pre w H).
  destruct (download_all_zip_files url pre file_pattern download_dir ext w)
    as [w1 r1] eqn:E.
  cbn [snd fst] in *. subst r1.
  unfold download_all_zip_files in *. rewrite for_each_app, E.
  cbn [for_each]. unfold andthen, download_url.
  change (requests_get (address dd)) with
    (requests_get (url ++ dd ++ [SLASH] ++ dd ++ file_pattern ++ ext)) in G.
  now rewrite G.
Qed.

End FetcherMore.

(** The theorem of X5 at a response with status 404. *)
Lemma download_url_never_raises_witness :
  snd (download_url (web := missing_web) (lit "https://host/x.zip")
         [lit "nowhere"; lit "x.zip"] 128 (World sample_files []))
  = Ok tt.
Proof.
  exact (@download_url_never_raises missing_web (lit "https://host/x.zip")
           [lit "nowhere"; lit "x.zip"] 128
           (Response 404 [60; 104; 49; 62] None) (World sample_files [])
           eq_refl).
Defined.




(** The theorem of X8 at a directory that is not there. *)
Lemma download_url_without_directory_witness :
  download_url (web := serving_web None) (lit "https://host/x.zip")
    ([lit "zips"] ++ [lit "x.zip"]) 128 (World sample_files [])
  = (World sample_files [MsgUnable], Ok tt).
Proof.
  exact (@download_url_without_directory (serving_web None)
           (lit "https://host/x.zip") [lit "zips"] (lit "x.zip") 128
           (Response 200 [80; 75; 3; 4; 20] None) (World sample_files [])
           eq_refl eq_refl eq_refl).
Defined.

(** The theorem of X9 at three names, the second of which cannot be
    reached. *)
Lemma download_imgw_info_files_witness :
  download_imgw_info_files (web := flaky_web) (lit "https://host/dir")
    ([lit "a.txt"] ++ lit "b.txt" :: [lit "c.txt"]) [lit "info"]
    (World sample_files [])
  = (World sample_files [MsgNoFile], Raise ConnectionError).
Proof.
  apply (proj2 (@download_imgw_info_files_spec flaky_web
                  (lit "https://host/dir") [lit "info"]
                  (World sample_files []))
               [lit "a.txt"] (lit "b.txt") [lit "c.txt"] ConnectionError).
  - intros f [<- | []]. exists (Response 404 [] None). reflexivity.
  - reflexivity.
Defined.

(** ** The extractor *)

Lemma for_each_filter {A} (p : A -> bool) (body : A -> M unit)
  (l : list A) (w : world) :
  for_each l (fun x => if p x then body x else ret tt) w
  = for_each (filter p l) body w.
Proof.
  revert w; induction l as [|x l IH]; intros w; [reflexivity|].
  cbn [for_each filter]. destruct (p x).
  - cbn [for_each]. unfold andthen.
    destruct (body x w) as [w1 [[]|e]]; [apply IH | reflexivity].
  - unfold andthen, ret. apply IH.
Qed.

Section ExtractorFacts.
Context {zip : Unzipper}.

(** X11.  [unzip_all] opens the entries whose name ends in [.zip], in the
    order of the listing, and no other entry; it stops at the first
    archive that raises, with the files as that archive left them (what
    the earlier archives, and the failing one before it failed, extracted
    stays); a directory without such an entry is left as it is. *)
Theorem unzip_all_spec (zip_dir unzip_dir : path) (w : world)
  (names : list str) :
  listdir zip_dir (fs w) = Ok names ->
  unzip_all zip_dir unzip_dir w
  = for_each (filter (fun fname => endswith fname (lit ".zip")) names)
      (fun fname => unzip_one (zip_dir ++ [fname]) unzip_dir) w
  /\ (forall pre fname post w1 w2 e,
        filter (fun fname => endswith fname (lit ".zip")) names
        = pre ++ fname :: post ->
        for_each pre
          (fun fname => unzip_one (zip_dir ++ [fname]) unzip_dir) w
        = (w1, Ok tt) ->
        unzip_one (zip_dir ++ [fname]) unzip_dir w1 = (w2, Raise e) ->
        unzip_all zip_dir unzip_dir w = (w2, Raise e))
  /\ (filter (fun fname => endswith fname (lit ".zip")) names = [] ->
      unzip_all zip_dir unzip_dir w = (w, Ok tt)).
Proof.
  intros L.
  assert (unzip_all zip_dir unzip_dir w
          = for_each (filter (fun fname => endswith fname (lit ".zip")) names)
              (fun fname => unzip_one (zip_dir ++ [fname]) unzip_dir) w)
    as E.
  { unfold unzip_all. rewrite L. apply for_each_filter. }
  split; [exact E|]. split.
  - intros pre fname post w1 w2 e F P U. rewrite E, F, for_each_app, P.
    cbn [for_each]. unfold andthen. now rewrite U.
  - intros F. now rewrite E, F.
Qed.

End ExtractorFacts.

(** The theorem of X11 at a directory with one archive among other
    entries, at a directory whose one archive is bad, and at a directory
    without any. *)
Lemma unzip_all_witness :
  (snd (unzip_all (zip := copy_unzipper) [lit "data"; lit "zips"]
          [lit "info"] (World nested_files [])) = Ok tt
   /\ lookup [lit "info"; lit "out"]
        (fs (fst (unzip_all (zip := copy_unzipper) [lit "data"; lit "zips"]
                    [lit "info"] (World nested_files []))))
      = Some (File [80; 75]))
  /\ (snd (unzip_all (zip := copy_unzipper)
             [lit "data"; lit "zips"; lit "old"] [lit "info"]
             (World nested_files [])) = Raise BadZipFile
      /\ lookup [lit "info"; lit "out"]
           (fs (fst (unzip_all (zip := copy_unzipper)
                       [lit "data"; lit "zips"; lit "old"] [lit "info"]
                       (World nested_files []))))
         = Some (File []))
  /\ unzip_all (zip := copy_unzipper) [lit "info"] [lit "data"]
       (World nested_files [])
     = (World nested_files [], Ok tt).
Proof.
  destruct (@unzip_all_spec copy_unzipper [lit "data"; lit "zips"]
              [lit "info"] (World nested_files []) _ eq_refl) as [H _].
  destruct (@unzip_all_spec copy_unzipper [lit "data"; lit "zips"; lit "old"]
              [lit "info"] (World nested_files []) _ eq_refl)
    as (_ & H2 & _).
  destruct (@unzip_all_spec copy_unzipper [lit "info"] [lit "data"]
              (World nested_files []) _ eq_refl) as (_ & _ & H3).
  split; [|split].
  - rewrite H. split; reflexivity.
  - rewrite (H2 [] (lit "y.zip") [] (World nested_files []) _ BadZipFile
               eq_refl eq_refl eq_refl).
    split; reflexivity.
  - exact (H3 eq_refl).
Defined.

(** ** The classifiers together *)

Section ClassifierFacts.
Context {db : UnicodeDb}.

Lemma strip_slash_no_slash (e : str) : ~ In SLASH (strip_slash e).
Proof.
  unfold strip_slash, replace_char. intros H.
  apply in_flat_map in H as (c & _ & H).
  destruct (N.eqb_spec c SLASH) as [E|E]; [destruct H|].
  destruct H as [H|[]]. congruence.
Qed.

Lemma matches_dates_ends (t : str) :
  matches dates_pattern t = true ->
  exists n, rev t = SLASH :: n \/ rev t = LF :: SLASH :: n.
Proof.
  rewrite matches_dates. intros (n & tail & _ & -> & [-> | ->]);
    exists (rev n); rewrite rev_app_distr; cbn; [now left | now right].
Qed.

Lemma matches_info_rev (t : str) :
  matches info_pattern t = true ->
  exists n, rev t = 116 :: 120 :: 116 :: n
            \/ rev t = LF :: 116 :: 120 :: 116 :: n.
Proof.
  rewrite matches_info. intros (w & c & tail & _ & _ & _ & -> & [-> | ->]);
    exists (c :: rev w); rewrite !rev_app_distr; cbn;
    [left | right]; rewrite <- ?app_assoc; reflexivity.
Qed.

(** X12.  No link text is kept by both classifiers: a text the pattern of
    the date directories accepts is refused by the pattern of the info
    files. *)
Theorem classifiers_disjoint (t : str) :
  matches dates_pattern t && matches info_pattern t = false.
Proof.
  destruct (matches dates_pattern t) eqn:D; [|reflexivity].
  destruct (matches info_pattern t) eqn:I; [|reflexivity]. exfalso.
  apply matches_dates_ends in D as (n & D).
  apply matches_info_rev in I as (n' & I).
  destruct D as [D|D], I as [I|I]; rewrite D in I; discriminate I.
Qed.

(** X13.  Whatever the table holds, no name either classifier returns
    contains a slash. *)
Theorem classifiers_return_no_slash (bs4_table : node) :
  match get_dates_from_table bs4_table with
  | Ok dates => Forall (fun d => ~ In SLASH d) dates
  | Raise _ => True
  end
  /\ match get_info_files_from_table bs4_table with
     | Ok names => Forall (fun n => ~ In SLASH n) names
     | Raise _ => True
     end.
Proof.
  unfold get_dates_from_table, get_info_files_from_table. split.
  - destruct (filter_matching dates_pattern (link_strings bs4_table));
      cbn; [|exact I].
    apply Forall_forall. intros d H. apply in_map_iff in H as (e & <- & _).
    apply strip_slash_no_slash.
  - destruct (filter_matching info_pattern (link_strings bs4_table));
      cbn; [|exact I].
    apply Forall_forall. intros d H. apply in_map_iff in H as (e & <- & _).
    apply strip_slash_no_slash.
Qed.

End ClassifierFacts.

(** ** The headers of a text *)

Lemma map_r_Forall2 {A B} (f : A -> result B) (l : list A) (ys : list B) :
  map_r f l = Ok ys -> Forall2 (fun y x => f x = Ok y) ys l.
Proof.
  revert ys; induction l as [|x l IH]; intros ys; cbn [map_r].
  - intros [= <-]. constructor.
  - destruct (f x) as [y|e] eqn:E; cbn [bind]; [|discriminate].
    destruct (map_r f l) as [ys'|e]; cbn [bind]; [|discriminate].
    intros [= <-]. constructor; [exact E | now apply IH].
Qed.

Lemma map_r_raises {A B} (f : A -> result B) (l : list A) (x : A)
  (e0 : exn) :
  (forall y e, f y = Raise e -> e = e0) ->
  In x l -> f x = Raise e0 -> map_r f l = Raise e0.
Proof.
  intros Only. induction l as [|y l IH]; intros H R; [destruct H|].
  cbn [map_r]. destruct (f y) as [v|e] eqn:E; cbn [bind].
  - destruct H as [->|H]; [congruence|]. now rewrite IH.
  - now rewrite (Only _ _ E).
Qed.

Lemma firstn_prefix {A} (x r : list A) (n : nat) :
  n = List.length x -> firstn n (x ++ r) = x.
Proof.
  intros ->. rewrite firstn_app, Nat.sub_diag, firstn_all. cbn.
  apply app_nil_r.
Qed.

Lemma py_lines_nonempty (text : str) : text <> [] -> py_lines text <> [].
Proof.
  destruct text as [|c t]; [congruence|]. intros _. rewrite py_lines_cons.
  destruct (c =? LF); [discriminate|]. destruct (py_lines t); discriminate.
Qed.

Lemma py_lines_app (a b : str) :
  py_lines ((a ++ [LF]) ++ b) = py_lines (a ++ [LF]) ++ py_lines b.
Proof.
  induction a as [|c a IH].
  - cbn [app]. rewrite !py_lines_cons. reflexivity.
  - cbn [app]. rewrite !(py_lines_cons c). rewrite IH.
    destruct (c =? LF); [reflexivity|].
    destruct (py_lines (a ++ [LF])) as [|l ls] eqn:E; [|reflexivity].
    exfalso. apply (@py_lines_nonempty (a ++ [LF])); [|exact E].
    now destruct a.
Qed.



Lemma before_first_app {A} (p : A -> bool) (l l' b : list A) :
  before_first p l = Some b -> before_first p (l ++ l') = Some b.
Proof.
  revert b; induction l as [|x l IH]; intros b; cbn; [discriminate|].
  destruct (p x); [trivial|].
  destruct (before_first p l) as [b'|]; [|discriminate].
  cbn. intros [= <-]. now rewrite (IH b' eq_refl).
Qed.

Section HeaderLineFacts.
Context {db : UnicodeDb}.

Lemma unit_end_not_newline c : in_set UNIT_END c = true -> c <> LF.
Proof. intros H ->. discriminate H. Qed.

Lemma letter_not_newline c : in_set (UPPER ++ LOWER) c = true -> c <> LF.
Proof. intros H ->. discriminate H. Qed.

Lemma forallb_not_newline_snoc w c :
  forallb not_newline w = true -> c <> LF ->
  forallb not_newline (w ++ [c]) = true.
Proof.
  intros F N. rewrite forallb_app, F. cbn. unfold not_newline.
  apply N.eqb_neq in N. now rewrite N.
Qed.

(** Every way the pattern matches at the start of a line gives a header of
    the shape. *)
Lemma header_match_shape line m :
  In m (run header_pattern (MState 0 line [])) ->
  exists h,
    header_shape h line
    /\ ([group_text line m 1; group_text line m 2] = [h; []]
        \/ [group_text line m 1; group_text line m 2] = [[]; h]).
Proof.
  unfold header_pattern. intros H.
  apply in_alt in H as [H|H]; apply in_group in H as (m1 & H & ->).
  - unfold pattern_A in H. cbn [cat] in H.
    apply in_seq in H as (s0 & H0 & H). apply in_bol in H0 as [_ ->].
    apply in_seq in H as (s1 & H1 & H). apply in_one in H1 as (u & _ & A1).
    apply in_seq in H as (s2 & H2 & H).
    apply in_star_any in H2 as (w & F & A2).
    apply in_seq in H as (s3 & H3 & H). apply in_one in H3 as (c & Oc & A3).
    apply in_lit in H as A4.
    destruct A1 as (R1 & P1 & G1), A2 as (R2 & P2 & G2),
             A3 as (R3 & P3 & G3), A4 as (R4 & P4 & G4).
    cbn [rest pos groups] in *.
    assert (line = (u :: w ++ [c; RBRACKET]) ++ rest m1) as L.
    { rewrite R1, R2, R3, R4. cbn. now rewrite <- app_assoc. }
    exists (u :: w ++ [c; RBRACKET]). split.
    + split; [now exists (rest m1)|]. split.
      { cbn. rewrite length_app. cbn. lia. }
      split.
      { cbn [tl]. change [c; RBRACKET] with ([c] ++ [RBRACKET]).
        rewrite app_assoc. apply forallb_not_newline_snoc; [|discriminate].
        apply forallb_not_newline_snoc; [exact F|].
        now apply unit_end_not_newline. }
      exists (u :: w ++ [c]), RBRACKET. split; [|now left].
      cbn. now rewrite <- app_assoc.
    + left. unfold group_text, close_group. cbn [groups].
      rewrite G4, G3, G2, G1. cbn [List.find fst Nat.eqb pos]. unfold slice.
      rewrite Nat.sub_0_r. cbn [skipn]. f_equal.
      rewrite L at 1. apply firstn_prefix.
      cbn [List.length] in *. rewrite length_app. cbn [List.length]. lia.
  - unfold pattern_B in H. cbn [cat] in H.
    apply in_seq in H as (s0 & H0 & H). apply in_bol in H0 as [_ ->].
    apply in_seq in H as (s1 & H1 & H). apply in_one in H1 as (u & _ & A1).
    apply in_seq in H as (s2 & H2 & H).
    apply in_star_any in H2 as (w & F & A2).
    apply in_one in H as (c & Oc & A3).
    destruct A1 as (R1 & P1 & G1), A2 as (R2 & P2 & G2),
             A3 as (R3 & P3 & G3).
    cbn [rest pos groups] in *.
    assert (line = (u :: w ++ [c]) ++ rest m1) as L.
    { rewrite R1, R2, R3. cbn. now rewrite <- app_assoc. }
    exists (u :: w ++ [c]). split.
    + split; [now exists (rest m1)|]. split.
      { cbn. rewrite length_app. cbn. lia. }
      split.
      { cbn [tl]. apply forallb_not_newline_snoc; [exact F|].
        now apply letter_not_newline. }
      exists (u :: w), c. split; [reflexivity | now right].
    + right. unfold group_text, close_group. cbn [groups].
      rewrite G3, G2, G1. cbn [List.find fst Nat.eqb pos]. unfold slice.
      rewrite Nat.sub_0_r. cbn [skipn]. f_equal. f_equal.
      rewrite L at 1. apply firstn_prefix.
      cbn [List.length] in *. rewrite length_app. cbn [List.length]. lia.
Qed.

Lemma header_shape_nonempty h line : header_shape h line -> h <> [].
Proof. intros (_ & L & _) ->. cbn in L. lia. Qed.

Lemma header_of_line_shape line h :
  header_of_line line = Ok h -> header_shape h line.
Proof.
  unfold header_of_line. rewrite findall_header.
  destruct (re_match header_pattern line) as [m|] eqn:E; [|discriminate].
  unfold re_match in E. apply hd_error_some_in in E.
  apply header_match_shape in E as (h' & S & [-> | ->]); cbn [item0 bind].
  - cbn [filter]. rewrite (proj2 (str_eqb_neq h' []) (header_shape_nonempty S)).
    cbn. now intros [= <-].
  - cbn [filter]. rewrite str_eqb_refl.
    rewrite (proj2 (str_eqb_neq h' []) (header_shape_nonempty S)).
    cbn. now intros [= <-].
Qed.

Lemma header_of_line_raises line e :
  header_of_line line = Raise e -> e = IndexError.
Proof.
  unfold header_of_line.
  destruct (findall header_pattern 2 line) as [|e0 l]; cbn [item0 bind].
  - now intros [= <-].
  - destruct (filter (fun s => negb (str_eqb s [])) e0); cbn [item0].
    + now intros [= <-].
    + discriminate.
Qed.

Lemma header_of_line_unmatched c rest :
  is_word c = true -> in_set UPPER c = false ->
  header_of_line (c :: rest) = Raise IndexError.
Proof.
  intros W U. unfold header_of_line. rewrite findall_header.
  assert (run header_pattern (MState 0 (c :: rest) []) = []) as E.
  { destruct (run header_pattern (MState 0 (c :: rest) [])) as [|m l] eqn:E;
      [reflexivity|]. exfalso.
    assert (In m (run header_pattern (MState 0 (c :: rest) []))) as H
      by (rewrite E; now left).
    unfold header_pattern in H.
    apply in_alt in H as [H|H]; apply in_group in H as (m1 & H & _).
    - unfold pattern_A in H. cbn [cat] in H.
      apply in_seq in H as (s0 & H0 & H). apply in_bol in H0 as [_ ->].
      apply in_seq in H as (s1 & H1 & _). apply in_one in H1 as (u & O & A1).
      destruct A1 as (R1 & _). cbn in R1. injection R1 as -> _. congruence.
    - unfold pattern_B in H. cbn [cat] in H.
      apply in_seq in H as (s0 & H0 & H). apply in_bol in H0 as [_ ->].
      apply in_seq in H as (s1 & H1 & _). apply in_one in H1 as (u & O & A1).
      destruct A1 as (R1 & _). cbn in R1. injection R1 as -> _.
      unfold in_set in O, U. cbn [existsb in_item UPPER] in O, U.
      rewrite W in O. cbn [negb orb] in O.
      apply orb_false_iff in U as [U _]. rewrite U in O. discriminate O. }
  unfold re_match. now rewrite E.
Qed.

(** X14.  The headers of a text come one per line of the header block, in
    the order of the lines; each is the start of its line, at least two
    characters long, and ends in a closing bracket or a letter, so a
    line's tail after the last such character is cut off. *)
Theorem headers_of_text_shape (text : str) (headers : list str) :
  headers_of_text text = Ok headers ->
  exists blk,
    header_block text = Ok blk /\ Forall2 header_shape headers blk.
Proof.
  unfold headers_of_text.
  destruct (header_block text) as [blk|e]; cbn [bind]; [|discriminate].
  intros H. exists blk. split; [reflexivity|].
  apply map_r_Forall2 in H.
  induction H as [|h line hs blk' H _ IH]; constructor; [|exact IH].
  now apply header_of_line_shape.
Qed.

(** X15.  One line of the header block that starts with a word character
    other than a capital letter of the pattern (a small letter, a digit, an
    underscore) makes the extractor raise [IndexError], whatever the other
    lines hold. *)
Theorem headers_of_text_bad_line (text : str) (blk : list str) (c : char)
  (rest : str) :
  header_block text = Ok blk ->
  In (c :: rest) blk ->
  is_word c = true -> in_set UPPER c = false ->
  headers_of_text text = Raise IndexError.
Proof.
  intros B H W U. unfold headers_of_text. rewrite B. cbn [bind].
  apply (@map_r_raises _ _ header_of_line blk (c :: rest)).
  - exact header_of_line_raises.
  - exact H.
  - now apply header_of_line_unmatched.
Qed.

(** X16.  Once a text that ends in a newline has its separator, what is
    appended to it changes nothing: the footer is never read. *)
Theorem footer_is_ignored (a footer : str) (blk : list str) :
  header_block (a ++ [LF]) = Ok blk ->
  headers_of_text ((a ++ [LF]) ++ footer) = headers_of_text (a ++ [LF]).
Proof.
  intros B. unfold headers_of_text. rewrite B.
  rewrite header_block_before_first in B.
  destruct (before_first blank_line (tl (py_lines (a ++ [LF]))))
    as [b|] eqn:E; [|discriminate]. injection B as ->.
  rewrite header_block_before_first, py_lines_app.
  destruct (py_lines (a ++ [LF])) as [|l ls] eqn:P.
  { exfalso. apply (@py_lines_nonempty (a ++ [LF])); [|exact P].
    now destruct a. }
  cbn [tl app] in *. now rewrite (before_first_app _ _ _ E).
Qed.


End HeaderLineFacts.

(** The theorem of X14 at a text of two header lines, the first with a
    tail after its unit. *)
Lemma headers_of_text_shape_witness :
  exists blk,
    header_block (db := ascii_db)
      (LF :: lit "TEMP [C] x" ++ LF :: lit "DATE" ++ LF :: LF
          :: lit "Status 8" ++ [LF])
    = Ok blk
    /\ Forall2 (header_shape (db := ascii_db))
         [lit "TEMP [C]"; lit "DATE"] blk.
Proof.
  exact (@headers_of_text_shape ascii_db
           (LF :: lit "TEMP [C] x" ++ LF :: lit "DATE" ++ LF :: LF
               :: lit "Status 8" ++ [LF])
           [lit "TEMP [C]"; lit "DATE"] eq_refl).
Defined.

(** The theorem of X15 at a block whose second line starts with a small
    letter. *)
Lemma headers_of_text_bad_line_witness :
  headers_of_text (db := ascii_db)
    (LF :: lit "DATE" ++ LF :: lit "temp" ++ LF :: [LF])
  = Raise IndexError.
Proof.
  exact (@headers_of_text_bad_line ascii_db
           (LF :: lit "DATE" ++ LF :: lit "temp" ++ LF :: [LF])
           [lit "DATE" ++ [LF]; lit "temp" ++ [LF]] 116 (lit "emp" ++ [LF])
           eq_refl (or_intror (or_introl eq_refl)) eq_refl eq_refl).
Defined.

(** The theorem of X16 at a text of one header line and a footer. *)
Lemma footer_is_ignored_witness :
  headers_of_text (db := ascii_db)
    (((LF :: lit "DATE" ++ [LF]) ++ [LF]) ++ lit "Status 8" ++ [LF])
  = headers_of_text (db := ascii_db) ((LF :: lit "DATE" ++ [LF]) ++ [LF]).
Proof.
  exact (@footer_is_ignored ascii_db (LF :: lit "DATE" ++ [LF])
           (lit "Status 8" ++ [LF]) [lit "DATE" ++ [LF]] eq_refl).
Defined.


(** ** The merger, in general *)

Lemma map_r_first_raise {A B} (f : A -> result B) (pre post : list A)
  (x : A) (e : exn) :
  (forall y, In y pre -> exists v, f y = Ok v) ->
  f x = Raise e -> map_r f (pre ++ x :: post) = Raise e.
Proof.
  intros G R. induction pre as [|y pre IH]; cbn [app map_r].
  - now rewrite R.
  - destruct (G y (or_introl eq_refl)) as [v ->]. cbn [bind].
    rewrite IH; [reflexivity|]. intros z Hz. apply G. now right.
Qed.

Lemma length_positional (k : nat) : List.length (positional k) = k.
Proof. unfold positional. now rewrite length_map, length_seq. Qed.

Section MergerInGeneral.
Context {db : UnicodeDb} {reader : CsvReader}.

(** X18.  Files read into frames of the same [k] positional columns are
    stacked in the order of the listing: the rows follow each other, and
    every row keeps the row label it had in its file, so labels repeat.
    With headers of length [k] the columns are renamed; with headers of
    another length the merger raises [ValueError]. *)
Theorem merge_same_shape (csv_dir : path) (headers : option (list label))
  (f_name_pattern : option regex) (files : entry) (names : list str)
  (k : nat) (f : DataFrame) (frames : list DataFrame) :
  listdir csv_dir files = Ok names ->
  map_r (fun n => read_csv (csv_dir ++ [n]) files)
        (filter (selected f_name_pattern) names) = Ok (f :: frames) ->
  Forall (fun g => columns g = positional k
                   /\ Forall (fun r => List.length r = k) (rows g))
         (f :: frames) ->
  merge_imgw_csv_files csv_dir headers f_name_pattern files
  = match headers with
    | None => Ok (Frame (positional k) (flat_map index (f :: frames))
                        (flat_map rows (f :: frames)))
    | Some h =>
        if (List.length h =? k)%nat
        then Ok (Frame h (flat_map index (f :: frames))
                       (flat_map rows (f :: frames)))
        else Raise ValueError
    end.
Proof.
  intros L R F. unfold merge_imgw_csv_files. rewrite L. cbn [bind].
  rewrite read_selected_filter, R. cbn [bind].
  rewrite (@concat_same (positional k) f frames).
  - cbn [bind]. destruct headers as [h|]; [|reflexivity].
    unfold set_columns. cbn [columns index rows].
    now rewrite length_positional.
  - apply positional_nodup.
  - rewrite length_positional. exact F.
Qed.

(** X19.  The first selected file that cannot be read ends the merger with
    the error of that read; the frames read before it are lost and the
    files after it are not opened. *)
Theorem merge_read_failure (csv_dir : path) (headers : option (list label))
  (f_name_pattern : option regex) (files : entry) (names pre post : list str)
  (n : str) (e : exn) :
  listdir csv_dir files = Ok names ->
  filter (selected f_name_pattern) names = pre ++ n :: post ->
  (forall m, In m pre -> exists df, read_csv (csv_dir ++ [m]) files = Ok df) ->
  read_csv (csv_dir ++ [n]) files = Raise e ->
  merge_imgw_csv_files csv_dir headers f_name_pattern files = Raise e.
Proof.
  intros L S G R. unfold merge_imgw_csv_files. rewrite L. cbn [bind].
  rewrite read_selected_filter, S.
  rewrite (@map_r_first_raise _ _ _ pre post n e G R). reflexivity.
Qed.

End MergerInGeneral.

(** The theorem of X18 at three files of two columns and a header list of
    one name. *)
Lemma merge_same_shape_witness :
  merge_imgw_csv_files (db := ascii_db) (reader := byte_rows)
    [lit "data"] (Some [LStr (lit "a")]) None sample_files
  = Raise ValueError.
Proof.
  apply (@merge_same_shape ascii_db byte_rows [lit "data"]
           (Some [LStr (lit "a")]) None sample_files
           [lit "k_1.csv"; lit "k_2.csv"; lit "notes.txt"; lit "k_3.csv"]
           2 (byte_frame (repeat 49 10))
           [byte_frame (repeat 50 5); byte_frame (repeat 51 7)]
           eq_refl eq_refl).
  repeat constructor.
Defined.

(** The theorem of X19 at a directory that has the name of a delimited
    file. *)
Lemma merge_read_failure_witness :
  merge_imgw_csv_files (db := ascii_db) (reader := byte_rows)
    [lit "data"] None None csv_named_directory
  = Raise IsADirectoryError.
Proof.
  apply (@merge_read_failure ascii_db byte_rows [lit "data"] None None
           csv_named_directory
           [lit "a.csv"; lit "b.csv"; lit "c.csv"]
           [lit "a.csv"] [lit "c.csv"] (lit "b.csv") IsADirectoryError
           eq_refl eq_refl).
  - intros m [<- | []]. exists (byte_frame [49]). reflexivity.
  - reflexivity.
Defined.

(** The theorem of X10 at two date directories and a web without files. *)
Lemma download_all_zip_files_witness :
  snd (download_all_zip_files (web := missing_web) (lit "https://host/")
         [lit "1991"; lit "1992"] (lit "_m_k") [lit "data"] (lit ".zip")
         (World sample_files []))
  = Ok tt.
Proof.
  apply (proj1 (@download_all_zip_files_spec missing_web (lit "https://host/")
                  (lit "_m_k") (lit ".zip") [lit "data"]
                  (World sample_files []))).
  intros dd _. eexists. reflexivity.
Defined.
